(** * VizKit core: coordinate system, object pool, surface pipeline,
      chart orchestrator, event normalizer and domain computation.

    A shallow embedding of the TypeScript sources and the properties of
    the specification that they decide.

    Numbers.  A TypeScript [number] is an IEEE-754 binary64 value.  The
    code that computes with coordinates is written once, over the
    interface [Number], and read at two instances: [float] (Rocq's
    primitive binary64 floats, what the program runs on) and [Z]
    (the same code over integers, where no operation rounds).
    Counts (array lengths, the pool capacity, handles) are [nat].

    Environment.  What the code takes from its surroundings is a
    parameter of its model: whether the identifier [RenderLayer], which
    two modules import as a type only, resolves at run time ([Scope]);
    what a renderable or an event handler does when it is called
    ([behaviour]); the window's animation frames ([Window]). *)

From Stdlib Require Import ZArith Floats String List Bool Lia.
From stdpp Require Import base list.
Import ListNotations.

Local Open Scope Z_scope.

(* ================================================================== *)
(** ** JavaScript numbers *)

Module Js.

(** The operations the sources apply to numbers: integer literals,
    [+], [-], [*], [Math.max], [Math.min], [<=] and [<]; and the
    conversion that the DOM applies to a number assigned to an
    attribute of type [unsigned long] (Web IDL, "ConvertToInt"): NaN
    and the infinities give 0, any other number is truncated towards
    zero and taken modulo 2^32. *)
Class Number (num : Type) : Type := {
  num_lit : Z -> num;
  num_zero : num;
  num_add : num -> num -> num;
  num_sub : num -> num -> num;
  num_mul : num -> num -> num;
  num_max : num -> num -> num;
  num_min : num -> num -> num;
  num_leb : num -> num -> bool;
  num_ltb : num -> num -> bool;
  num_to_uint32 : num -> Z
}.

(** [Math.max] on binary64, as ECMAScript defines it: NaN if an
    argument is NaN; [+0] counts as larger than [-0]. *)
Definition float_max (a b : float) : float :=
  if PrimFloat.is_nan a || PrimFloat.is_nan b then PrimFloat.nan
  else if PrimFloat.ltb a b then b
  else if PrimFloat.ltb b a then a
  else match PrimFloat.classify a with
       | NZero => b
       | _ => a
       end.

(** [Math.min] on binary64, as ECMAScript defines it: NaN if an
    argument is NaN; [-0] counts as smaller than [+0]. *)
Definition float_min (a b : float) : float :=
  if PrimFloat.is_nan a || PrimFloat.is_nan b then PrimFloat.nan
  else if PrimFloat.ltb a b then a
  else if PrimFloat.ltb b a then b
  else match PrimFloat.classify a with
       | PZero => b
       | _ => a
       end.

(** The binary64 value of an integer literal. *)
Definition float_lit (z : Z) : float :=
  SF2Prim (binary_normalize prec emax z 0 false).

(** The [unsigned long] of a binary64 number: a finite number is
    [(-1)^s * m * 2^e]; shifting [m] by [e] truncates its magnitude. *)
Definition float_to_uint32 (f : float) : Z :=
  match Prim2SF f with
  | S754_finite s m e =>
      let magnitude := Z.shiftl (Z.pos m) e in
      (if s then - magnitude else magnitude) mod 2 ^ 32
  | _ => 0
  end.

Definition is_zero_class (c : float_class) : bool :=
  match c with PZero | NZero => true | _ => false end.

#[export] Instance float_Number : Number float := {|
  num_lit := float_lit;
  num_zero := PrimFloat.zero;
  num_add := PrimFloat.add;
  num_sub := PrimFloat.sub;
  num_mul := PrimFloat.mul;
  num_max := float_max;
  num_min := float_min;
  num_leb := PrimFloat.leb;
  num_ltb := PrimFloat.ltb;
  num_to_uint32 := float_to_uint32
|}.

#[export] Instance Z_Number : Number Z := {|
  num_lit := fun z => z;
  num_zero := 0;
  num_add := Z.add;
  num_sub := Z.sub;
  num_mul := Z.mul;
  num_max := Z.max;
  num_min := Z.min;
  num_leb := Z.leb;
  num_ltb := Z.ltb;
  num_to_uint32 := fun z => z mod 2 ^ 32
|}.

End Js.
Export Js.

(* ================================================================== *)
(** ** core/types.ts *)

Module Point.
Record t (num : Type) : Type := mk { x : num; y : num }.
Arguments mk {num} _ _.
Arguments x {num} _.
Arguments y {num} _.
End Point.

Module Rect.
Record t (num : Type) : Type :=
  mk { x : num; y : num; width : num; height : num }.
Arguments mk {num} _ _ _ _.
Arguments x {num} _.
Arguments y {num} _.
Arguments width {num} _.
Arguments height {num} _.
End Rect.

Module Margin.
Record t (num : Type) : Type :=
  mk { top : num; right : num; bottom : num; left : num }.
Arguments mk {num} _ _ _ _.
Arguments top {num} _.
Arguments right {num} _.
Arguments bottom {num} _.
Arguments left {num} _.

(** [Partial<Margin>]: each inset is either absent ([None]) or
    supplied. *)
Record partial (num : Type) : Type :=
  mk_partial { p_top : option num; p_right : option num;
               p_bottom : option num; p_left : option num }.
Arguments mk_partial {num} _ _ _ _.
Arguments p_top {num} _.
Arguments p_right {num} _.
Arguments p_bottom {num} _.
Arguments p_left {num} _.

(** The object spread [{ ...m, ...p }]: a property of [p] overrides
    the property of [m] with the same key. *)
Definition spread {num : Type} (m : t num) (p : partial num) : t num :=
  {| top := default (top m) (p_top p);
     right := default (right m) (p_right p);
     bottom := default (bottom m) (p_bottom p);
     left := default (left m) (p_left p) |}.
(** A whole [Margin] passed where a [Partial<Margin>] is expected. *)
Definition full {num : Type} (m : t num) : partial num :=
  {| p_top := Some (top m); p_right := Some (right m);
     p_bottom := Some (bottom m); p_left := Some (left m) |}.

End Margin.

Inductive RenderLayer : Type :=
  | Background | Grid | Data | Interaction | Overlay.

#[export] Instance RenderLayer_eq_dec : EqDecision RenderLayer.
Proof. solve_decision. Defined.

Inductive EventType : Type :=
  | click | mousemove | mouseenter | mouseleave | mousedown | mouseup
  | touchstart | touchmove | touchend.

#[export] Instance EventType_eq_dec : EqDecision EventType.
Proof. solve_decision. Defined.

Inductive ScaleType : Type :=
  | linear | log | pow | sqrt | time | band | point | ordinal.

(* ================================================================== *)
(** ** core/coordinate/coordinate-system.ts *)

Module CoordinateSystem.
Section Defs.
Context {num : Type} {N : Number num}.

Record t : Type := mk { width : num; height : num; margin : Margin.t num }.

(** The constructor copies the three fields of its config. *)
Definition new (w h : num) (m : Margin.t num) : t :=
  {| width := w; height := h; margin := m |}.

Definition getInnerWidth (cs : t) : num :=
  num_max num_zero
    (num_sub (num_sub (width cs) (Margin.left (margin cs)))
             (Margin.right (margin cs))).

Definition getInnerHeight (cs : t) : num :=
  num_max num_zero
    (num_sub (num_sub (height cs) (Margin.top (margin cs)))
             (Margin.bottom (margin cs))).

Definition getPlotBounds (cs : t) : Rect.t num :=
  {| Rect.x := Margin.left (margin cs);
     Rect.y := Margin.top (margin cs);
     Rect.width := getInnerWidth cs;
     Rect.height := getInnerHeight cs |}.

Definition getFullBounds (cs : t) : Rect.t num :=
  {| Rect.x := num_zero; Rect.y := num_zero;
     Rect.width := width cs; Rect.height := height cs |}.

Definition dataToScreen (cs : t) (p : Point.t num) : Point.t num :=
  {| Point.x := num_add (Margin.left (margin cs)) (Point.x p);
     Point.y := num_add (Margin.top (margin cs)) (Point.y p) |}.

Definition screenToData (cs : t) (p : Point.t num) : Point.t num :=
  {| Point.x := num_sub (Point.x p) (Margin.left (margin cs));
     Point.y := num_sub (Point.y p) (Margin.top (margin cs)) |}.

Definition isInPlotArea (cs : t) (p : Point.t num) : bool :=
  let plotBounds := getPlotBounds cs in
  num_leb (Rect.x plotBounds) (Point.x p)
  && num_leb (Point.x p) (num_add (Rect.x plotBounds) (Rect.width plotBounds))
  && num_leb (Rect.y plotBounds) (Point.y p)
  && num_leb (Point.y p) (num_add (Rect.y plotBounds) (Rect.height plotBounds)).

Definition clampToPlotArea (cs : t) (p : Point.t num) : Point.t num :=
  let plotBounds := getPlotBounds cs in
  {| Point.x :=
       num_max (Rect.x plotBounds)
         (num_min (num_add (Rect.x plotBounds) (Rect.width plotBounds))
                  (Point.x p));
     Point.y :=
       num_max (Rect.y plotBounds)
         (num_min (num_add (Rect.y plotBounds) (Rect.height plotBounds))
                  (Point.y p)) |}.

Definition resize (w h : num) (cs : t) : t :=
  {| width := w; height := h; margin := margin cs |}.

Definition setMargin (m : Margin.partial num) (cs : t) : t :=
  {| width := width cs; height := height cs;
     margin := Margin.spread (margin cs) m |}.

Definition getMargin (cs : t) : Margin.t num := margin cs.

End Defs.
Arguments t num : clear implicits.

(** *** Sample states *)

(** The margins the chart uses when none is given. *)
Definition default_margin {num : Type} {N : Number num} : Margin.t num :=
  {| Margin.top := num_lit 20; Margin.right := num_lit 20;
     Margin.bottom := num_lit 40; Margin.left := num_lit 50 |}.

(** An 800 by 600 surface with the default margins, on binary64. *)
Definition cs_float : t float :=
  new (num_lit 800) (num_lit 600) default_margin.

(** The point whose [x] is the binary64 number written [0.1]. *)
Definition p_tenth : Point.t float :=
  {| Point.x := 0x1.999999999999ap-4%float; Point.y := PrimFloat.zero |}.

End CoordinateSystem.

(* ================================================================== *)
(** ** Object pool (ObjectPool, PointPool, RectPool) *)

Module ObjectPool.

(** Pooled values are JavaScript objects: the pool's array holds
    references, and [reset] mutates the object a reference points to.
    The store maps a reference (an index) to the object's fields. *)
Abbreviation ref := nat (only parsing).
Abbreviation heap T := (list T) (only parsing).

Section Defs.
Context {T : Type}.

(** [factory] is the state of the object that [factory()] builds;
    [reset] is the effect of [reset(obj)] on the fields of [obj]. *)
Record t : Type := mk {
  pool : list ref;
  factory : T;
  reset : T -> T;
  maxSize : nat
}.

(** [constructor(factory, reset, maxSize = 1000)] *)
Definition new (f : T) (r : T -> T) (m : option nat) : t :=
  {| pool := []; factory := f; reset := r; maxSize := default 1000%nat m |}.

Definition with_pool (p : t) (l : list ref) : t :=
  {| pool := l; factory := factory p; reset := reset p; maxSize := maxSize p |}.

(** [return this.factory()]: a new object, at a new reference. *)
Definition construct (p : t) (h : heap T) : ref * t * heap T :=
  (length h, p, h ++ [factory p]).

(** [acquire()]. [pop()] takes the last element of the array; a
    reference to an object is truthy, so [if (obj) return obj] returns
    whatever was popped. *)
Definition acquire (p : t) (h : heap T) : ref * t * heap T :=
  if (0 <? length (pool p))%nat then
    match last (pool p) with
    | Some obj => (obj, with_pool p (removelast (pool p)), h)
    | None => construct p h
    end
  else construct p h.

(** [release(obj)] *)
Definition release (obj : ref) (p : t) (h : heap T) : t * heap T :=
  if (length (pool p) <? maxSize p)%nat then
    (with_pool p (pool p ++ [obj]), alter (reset p) obj h)
  else (p, h).

Definition clear (p : t) : t := with_pool p [].

Definition size (p : t) : nat := length (pool p).

(** What a program does with a pool and its objects: the three pool
    operations, building an object of its own, and writing the fields
    of an object it holds. *)
Inductive op : Type :=
  | Acquire
  | Release (obj : ref)
  | Clear
  | Construct (v : T)
  | Write (r : ref) (v : T).

Definition step (o : op) (s : t * heap T) : t * heap T :=
  let '(p, h) := s in
  match o with
  | Acquire => let '(_, p', h') := acquire p h in (p', h')
  | Release obj => release obj p h
  | Clear => (clear p, h)
  | Construct v => (p, h ++ [v])
  | Write r v => (p, <[r := v]> h)
  end.

(** A program may release any object that exists, and writes only to
    objects that are not sitting in the pool. *)
Definition allowed (o : op) (s : t * heap T) : Prop :=
  match o with
  | Release obj => (obj < length (snd s))%nat
  | Write r _ => r ∉ pool (fst s)
  | _ => True
  end.

(** The states a pool built by [new f r m] goes through. *)
Inductive reachable (f : T) (r : T -> T) (m : option nat)
  : t * heap T -> Prop :=
  | reachable_new (h : heap T) : reachable f r m (new f r m, h)
  | reachable_step (o : op) (s : t * heap T) :
      reachable f r m s -> allowed o s -> reachable f r m (step o s).

(** [release] of each object of a list, in order. *)
Definition release_all (objs : list ref) (s : t * heap T) : t * heap T :=
  fold_left (fun s obj => release obj (fst s) (snd s)) objs s.

(** [n] calls of [acquire]: the objects returned, in order, and the
    state left. *)
Fixpoint acquire_n (n : nat) (s : t * heap T) : list ref * (t * heap T) :=
  match n with
  | O => ([], s)
  | S n' =>
      let '(obj, p, h) := acquire (fst s) (snd s) in
      let '(objs, s') := acquire_n n' (p, h) in
      (obj :: objs, s')
  end.

(** Every object of the pool is in a state that [reset] left. *)
Definition clean (p : t) (h : heap T) : Prop :=
  Forall (fun o => exists v, h !! o = Some (reset p v)) (pool p).

(** What holds of every state of a pool built by [new f r m]. *)
Definition inv (f : T) (r : T -> T) (m : option nat) (s : t * heap T) : Prop :=
  factory (fst s) = f /\ reset (fst s) = r
  /\ maxSize (fst s) = default 1000%nat m
  /\ (size (fst s) <= maxSize (fst s))%nat
  /\ clean (fst s) (snd s).

End Defs.
Arguments t T : clear implicits.

Section Pools.
Context {num : Type} {N : Number num}.

Definition PointPool : t (Point.t num) :=
  new {| Point.x := num_zero; Point.y := num_zero |}
      (fun p => {| Point.x := num_zero; Point.y := num_zero |})
      None.

Definition RectPool : t (Rect.t num) :=
  new {| Rect.x := num_zero; Rect.y := num_zero;
         Rect.width := num_zero; Rect.height := num_zero |}
      (fun r => {| Rect.x := num_zero; Rect.y := num_zero;
                   Rect.width := num_zero; Rect.height := num_zero |})
      None.

End Pools.

(** *** Sample states *)

(** A pool of points over the integers, of capacity one, with one
    object that a caller built and moved to [(3, 4)]. *)
Definition pool1 : t (Point.t Z) :=
  new (factory (PointPool (num := Z))) (reset PointPool) (Some 1%nat).

Definition heap1 : heap (Point.t Z) := [{| Point.x := 3; Point.y := 4 |}].

End ObjectPool.

(* ================================================================== *)
(** ** Effects: exceptions, insertion-ordered maps, drawing calls *)

Module Exec.

(** A statement either completes with a value or throws: [Error(msg)],
    or an error of another kind, whose name then comes first in [msg].
    Either way it leaves a state behind. *)
Inductive result (A : Type) : Type :=
  | Ok (a : A)
  | Throw (msg : string).
Arguments Ok {A} _.
Arguments Throw {A} _.

Definition M (S A : Type) : Type := S -> result A * S.

Definition ret {S A : Type} (a : A) : M S A := fun s => (Ok a, s).

Definition bind {S A B : Type} (m : M S A) (k : A -> M S B) : M S B :=
  fun s =>
    match m s with
    | (Ok a, s') => k a s'
    | (Throw msg, s') => (Throw msg, s')
    end.

Definition throw {S A : Type} (msg : string) : M S A :=
  fun s => (Throw msg, s).

Definition get {S : Type} : M S S := fun s => (Ok s, s).

Definition modify {S : Type} (f : S -> S) : M S unit :=
  fun s => (Ok tt, f s).

(** [for (const a of l) body(a)] *)
Fixpoint for_each {S A : Type} (l : list A) (body : A -> M S unit)
  : M S unit :=
  match l with
  | [] => ret tt
  | a :: l' => bind (body a) (fun _ => for_each l' body)
  end.

End Exec.

Declare Scope exec_scope.
Delimit Scope exec_scope with exec.
Notation "'do' x <- m ; k" := (Exec.bind m (fun x => k))
  (at level 10, x name, m at level 100, k at level 200) : exec_scope.

(** chart.ts and canvas-renderer.ts import [RenderLayer] with
    [import type].  A type-only import is erased, so in the running
    modules [RenderLayer] is a free identifier: evaluating
    [RenderLayer.Data] looks the name up in the global environment,
    and throws a ReferenceError when there is no such global. *)
Module Scope.

(** [Unbound]: no global of that name, the modules on their own.
    [Bound]: the name resolves to the enum of core/types.ts. *)
Inductive t : Type := Unbound | Bound.

(** [RenderLayer.<member>] *)
Definition member (scope : t) (l : RenderLayer) : Exec.result RenderLayer :=
  match scope with
  | Bound => Exec.Ok l
  | Unbound => Exec.Throw "ReferenceError: RenderLayer is not defined"
  end.

(** An array literal of members, evaluated from left to right. *)
Fixpoint members (scope : t) (ls : list RenderLayer)
  : Exec.result (list RenderLayer) :=
  match ls with
  | [] => Exec.Ok []
  | l :: ls' =>
      match member scope l with
      | Exec.Ok v =>
          match members scope ls' with
          | Exec.Ok vs => Exec.Ok (v :: vs)
          | Exec.Throw msg => Exec.Throw msg
          end
      | Exec.Throw msg => Exec.Throw msg
      end
  end.

End Scope.

(** A JavaScript [Map]: keys in insertion order; [set] on a key that
    is present replaces its value in place. *)
Module JsMap.
Section Defs.
Context {K V : Type} `{EqDecision K}.

Definition t : Type := list (K * V).

Fixpoint get (k : K) (m : t) : option V :=
  match m with
  | [] => None
  | (k', v) :: m' => if decide (k = k') then Some v else get k m'
  end.

Definition has (k : K) (m : t) : bool :=
  match get k m with Some _ => true | None => false end.

Fixpoint set (k : K) (v : V) (m : t) : t :=
  match m with
  | [] => [(k, v)]
  | (k', v') :: m' =>
      if decide (k = k') then (k, v) :: m' else (k', v') :: set k v m'
  end.

Definition keys (m : t) : list K := map fst m.
Definition values (m : t) : list V := map snd m.

End Defs.
Arguments t K V : clear implicits.
End JsMap.

(** What the pipeline does to the drawing surfaces, in order. *)
Module Draw.

(** Calls on a [CanvasRenderingContext2D]. *)
Inductive call (num : Type) : Type :=
  | clearRect (x y w h : num)
  | scale (sx sy : num)
  | set_fillStyle (color : string)
  | fillRect (x y w h : num).
Arguments clearRect {num} _ _ _ _.
Arguments scale {num} _ _.
Arguments set_fillStyle {num} _.
Arguments fillRect {num} _ _ _ _.

(** [OnContext l c]: the call [c] on the context of layer [l]'s
    canvas.  [RenderCall id l]: [render(ctx)] of the renderable [id],
    with [ctx] the context of layer [l]. *)
Inductive event (num : Type) : Type :=
  | OnContext (l : RenderLayer) (c : call num)
  | RenderCall (id : nat) (l : RenderLayer).
Arguments OnContext {num} _ _.
Arguments RenderCall {num} _ _.

Definition is_clear {num : Type} (e : event num) : bool :=
  match e with
  | OnContext _ (clearRect _ _ _ _) => true
  | _ => false
  end.

End Draw.

(* ================================================================== *)
(** ** core/renderer/canvas-renderer.ts *)

Module CanvasLayer.
Section Defs.
Context {num : Type} {N : Number num}.

(** What [canvas.width = x] and [canvas.height = x] store, and what
    reading the attribute gives back.  The attributes are of type
    [unsigned long] and reflect the content attributes (HTML,
    "reflecting content attributes in IDL attributes"): [x] is
    converted to an [unsigned long]; a result above 2147483647 is
    replaced by the attribute's default, 300 for the width and 150
    for the height. *)
Definition canvas_dimension (fallback : Z) (x : num) : num :=
  let n := num_to_uint32 x in
  num_lit (if (n <=? 2147483647)%Z then n else fallback).

(** The canvas element ([style.width], [style.height] in px, [width],
    [height]), the pixel ratio and the dirty flag. The context is
    named by the layer that owns the canvas. *)
Record t : Type := mk {
  style_width : num;
  style_height : num;
  canvas_width : num;
  canvas_height : num;
  dpr : num;
  isDirty : bool
}.

(** The constructor, with [devicePixelRatio] resolved by the caller,
    for a canvas that gives out its 2D context.  It ends with
    [context.scale(dpr, dpr)]. *)
Definition new (width height ratio : num) : t * list (Draw.call num) :=
  ({| style_width := width; style_height := height;
      canvas_width := canvas_dimension 300 (num_mul width ratio);
      canvas_height := canvas_dimension 150 (num_mul height ratio);
      dpr := ratio; isDirty := true |},
   [Draw.scale ratio ratio]).

Definition set_dirty (b : bool) (l : t) : t :=
  {| style_width := style_width l; style_height := style_height l;
     canvas_width := canvas_width l; canvas_height := canvas_height l;
     dpr := dpr l; isDirty := b |}.

Definition clear (rect : option (Rect.t num)) (l : t)
  : t * list (Draw.call num) :=
  (set_dirty true l,
   [match rect with
    | Some r => Draw.clearRect (Rect.x r) (Rect.y r) (Rect.width r) (Rect.height r)
    | None => Draw.clearRect num_zero num_zero (canvas_width l) (canvas_height l)
    end]).

Definition markDirty (l : t) : t := set_dirty true l.
Definition markClean (l : t) : t := set_dirty false l.
Definition isDirtyLayer (l : t) : bool := isDirty l.

Definition resize (width height : num) (l : t) : t * list (Draw.call num) :=
  ({| style_width := width; style_height := height;
      canvas_width := canvas_dimension 300 (num_mul width (dpr l));
      canvas_height := canvas_dimension 150 (num_mul height (dpr l));
      dpr := dpr l; isDirty := true |},
   [Draw.scale (dpr l) (dpr l)]).

End Defs.
Arguments t num : clear implicits.
End CanvasLayer.

(** The window's animation frame callbacks (HTML, "animation frames"):
    [requestAnimationFrame] and [cancelAnimationFrame]. *)
Module Window.
Section Defs.
Context {C : Type}.

(** The animation frame callback identifier and the ordered map of
    animation frame callbacks. *)
Record t : Type := mk {
  identifier : nat;
  frame_callbacks : list (nat * C)
}.

Definition empty : t := {| identifier := 0; frame_callbacks := [] |}.

Definition requestAnimationFrame (c : C) (w : t) : nat * t :=
  let handle := S (identifier w) in
  (handle,
   {| identifier := handle;
      frame_callbacks := frame_callbacks w ++ [(handle, c)] |}).

Definition remove (handle : nat) (w : t) : t :=
  {| identifier := identifier w;
     frame_callbacks :=
       filter (fun e => fst e ≠ handle) (frame_callbacks w) |}.

Definition cancelAnimationFrame (handle : nat) (w : t) : t :=
  remove handle w.

Definition lookup (handle : nat) (w : t) : option C :=
  snd <$> find (fun e => bool_decide (fst e = handle)) (frame_callbacks w).

End Defs.
Arguments t C : clear implicits.
End Window.

Module CanvasRenderer.

Definition layerOrder : list RenderLayer :=
  [Background; Grid; Data; Interaction; Overlay].

(** The number a [RenderLayer] prints as in an error message. *)
Definition layer_number (l : RenderLayer) : string :=
  match l with
  | Background => "0" | Grid => "1" | Data => "2"
  | Interaction => "3" | Overlay => "4"
  end.

Section Defs.
Context {num : Type} {N : Number num}.

Record t : Type := mk {
  layers : JsMap.t RenderLayer (CanvasLayer.t num);
  width : num;
  height : num;
  dpr : num;
  animationFrameId : option nat
}.

Definition set_layers (m : JsMap.t RenderLayer (CanvasLayer.t num)) (r : t) : t :=
  {| layers := m; width := width r; height := height r; dpr := dpr r;
     animationFrameId := animationFrameId r |}.

Definition set_animationFrameId (i : option nat) (r : t) : t :=
  {| layers := layers r; width := width r; height := height r;
     dpr := dpr r; animationFrameId := i |}.

Definition on_layer (k : RenderLayer) (cs : list (Draw.call num))
  : list (Draw.event num) :=
  map (Draw.OnContext k) cs.

(** The loop of [initializeLayers()]: one layer per entry of the
    layer order. *)
Definition add_layers (order : list RenderLayer) (r : t)
  : t * list (Draw.event num) :=
  fold_left
    (fun acc layerType =>
       let '(r, tr) := acc in
       let '(layer, cs) := CanvasLayer.new (width r) (height r) (dpr r) in
       (set_layers (JsMap.set layerType layer (layers r)) r,
        tr ++ on_layer layerType cs))
    order (r, []).

(** [initializeLayers()].  The layer order is an array literal of
    [RenderLayer] members, evaluated before the loop. *)
Definition initializeLayers (scope : Scope.t) (r : t)
  : Exec.result (t * list (Draw.event num)) :=
  match Scope.members scope layerOrder with
  | Exec.Ok order => Exec.Ok (add_layers order r)
  | Exec.Throw msg => Exec.Throw msg
  end.

(** The constructor, with the container and the pixel ratio resolved
    by the caller. *)
Definition new (scope : Scope.t) (w h ratio : num)
  : Exec.result (t * list (Draw.event num)) :=
  initializeLayers scope
    {| layers := []; width := w; height := h; dpr := ratio;
       animationFrameId := None |}.

(** What the constructor builds when it returns: the renderer, and
    the calls made on the contexts. *)
Definition constructed (w h ratio : num) : t * list (Draw.event num) :=
  add_layers layerOrder
    {| layers := []; width := w; height := h; dpr := ratio;
       animationFrameId := None |}.

Definition getLayer (layer : RenderLayer) (r : t)
  : Exec.result (CanvasLayer.t num) :=
  match JsMap.get layer (layers r) with
  | Some canvasLayer => Exec.Ok canvasLayer
  | None => Exec.Throw ("Layer not found: " ++ layer_number layer)
  end.

(** [getContext(layer)]: the context of that layer's canvas. *)
Definition getContext (layer : RenderLayer) (r : t)
  : Exec.result RenderLayer :=
  match getLayer layer r with
  | Exec.Ok _ => Exec.Ok layer
  | Exec.Throw msg => Exec.Throw msg
  end.

Definition clear (layer : RenderLayer) (rect : option (Rect.t num)) (r : t)
  : Exec.result unit * (t * list (Draw.event num)) :=
  match getLayer layer r with
  | Exec.Ok canvasLayer =>
      let '(l', cs) := CanvasLayer.clear rect canvasLayer in
      (Exec.Ok tt, (set_layers (JsMap.set layer l' (layers r)) r, on_layer layer cs))
  | Exec.Throw msg => (Exec.Throw msg, (r, []))
  end.

(** [clearAll()]: every layer of the map, in the map's order. *)
Definition clearAll (r : t) : t * list (Draw.event num) :=
  (set_layers
     (map (fun e => (fst e, fst (CanvasLayer.clear None (snd e)))) (layers r)) r,
   flat_map (fun e => on_layer (fst e) (snd (CanvasLayer.clear None (snd e))))
     (layers r)).

Definition markDirty (layer : RenderLayer) (r : t) : Exec.result t :=
  match getLayer layer r with
  | Exec.Ok canvasLayer =>
      Exec.Ok (set_layers (JsMap.set layer (CanvasLayer.markDirty canvasLayer) (layers r)) r)
  | Exec.Throw msg => Exec.Throw msg
  end.

Definition resize (w h : num) (r : t) : t * list (Draw.event num) :=
  ({| layers :=
        map (fun e => (fst e, fst (CanvasLayer.resize w h (snd e)))) (layers r);
      width := w; height := h; dpr := dpr r;
      animationFrameId := animationFrameId r |},
   flat_map (fun e => on_layer (fst e) (snd (CanvasLayer.resize w h (snd e))))
     (layers r)).

(** *** Frame scheduling *)

(** A callback handed to [scheduleRender]: it does some work of its
    own (named by [label]) and may call [scheduleRender] again, with
    the callbacks of [reschedules], in order. *)
#[warnings="-register-all"]
Inductive Callback : Type :=
  | callback (label : nat) (reschedules : list Callback).

(** The renderer, the window it schedules on, and the labels of the
    callbacks that have run, oldest first. *)
Record world : Type := mk_world {
  renderer : t;
  window : Window.t Callback;
  executed : list nat
}.

(** [scheduleRender(callback)].  The frame callback it requests is the
    closure [() => { callback(); this.animationFrameId = null; }],
    kept in the window's map as [callback]; [invoke] runs it. *)
Definition scheduleRender (c : Callback) (w : world) : world :=
  let win :=
    match animationFrameId (renderer w) with
    | Some id => Window.cancelAnimationFrame id (window w)
    | None => window w
    end in
  let '(handle, win') := Window.requestAnimationFrame c win in
  {| renderer := set_animationFrameId (Some handle) (renderer w);
     window := win';
     executed := executed w |}.

Definition cancelRender (w : world) : world :=
  match animationFrameId (renderer w) with
  | Some id =>
      {| renderer := set_animationFrameId None (renderer w);
         window := Window.cancelAnimationFrame id (window w);
         executed := executed w |}
  | None => w
  end.

(** [destroy()]: the canvases leave the document and the map of
    layers is emptied. *)
Definition destroy (w : world) : world :=
  let w' := cancelRender w in
  {| renderer := set_layers [] (renderer w');
     window := window w';
     executed := executed w' |}.

(** Running the closure requested for [c]. *)
Definition invoke (c : Callback) (w : world) : world :=
  let '(callback label reschedules) := c in
  let w1 := {| renderer := renderer w; window := window w;
               executed := executed w ++ [label] |} in
  let w2 := fold_left (fun w c' => scheduleRender c' w) reschedules w1 in
  {| renderer := set_animationFrameId None (renderer w2);
     window := window w2;
     executed := executed w2 |}.

(** One animation frame (HTML, "run the animation frame callbacks"):
    for each handle that was in the map when the frame began, if it is
    still there, remove it and invoke its callback. *)
Fixpoint run_handles (handles : list nat) (w : world) : world :=
  match handles with
  | [] => w
  | handle :: rest =>
      match Window.lookup handle (window w) with
      | Some c =>
          run_handles rest
            (invoke c {| renderer := renderer w;
                         window := Window.remove handle (window w);
                         executed := executed w |})
      | None => run_handles rest w
      end
  end.

Definition animation_frame (w : world) : world :=
  run_handles (map fst (Window.frame_callbacks (window w))) w.

(** Every layer has the renderer's logical size and pixel ratio, and
    a canvas whose dimensions are what the canvas stores of that size
    times the ratio. *)
Definition uniform (r : t) : Prop :=
  Forall (fun e =>
            CanvasLayer.style_width (snd e) = width r
            /\ CanvasLayer.style_height (snd e) = height r
            /\ CanvasLayer.dpr (snd e) = dpr r
            /\ CanvasLayer.canvas_width (snd e)
               = CanvasLayer.canvas_dimension 300 (num_mul (width r) (dpr r))
            /\ CanvasLayer.canvas_height (snd e)
               = CanvasLayer.canvas_dimension 150 (num_mul (height r) (dpr r)))
         (layers r).

Definition label (c : Callback) : nat :=
  match c with callback l _ => l end.

(** The renderer's handle names the one pending request, or there is
    none. *)
Definition tracked (w : world) : Prop :=
  match animationFrameId (renderer w) with
  | Some handle => exists c, Window.frame_callbacks (window w) = [(handle, c)]
  | None => Window.frame_callbacks (window w) = []
  end.

Definition schedule_all (cs : list Callback) (w : world) : world :=
  fold_left (fun w c => scheduleRender c w) cs w.

End Defs.
Arguments t num : clear implicits.
Arguments world num : clear implicits.

(** *** Sample states *)

(** A new 800 by 600 renderer over the integers, pixel ratio 1, and a
    window with no pending frame request. *)
Definition world0 : world Z :=
  {| renderer := fst (constructed 800 600 1);
     window := Window.empty;
     executed := [] |}.

(** A callback that asks for one more frame, as a render loop does. *)
Definition cbB : Callback := callback 2%nat [].
Definition cbA : Callback := callback 1%nat [cbB].
Definition cbC : Callback := callback 3%nat [].

End CanvasRenderer.

(* ================================================================== *)
(** ** chart.ts *)

Module Chart.
Import CanvasRenderer.

(** What the chart reads of a renderable: its identity, its optional
    layer and its optional visibility flag. What [render(ctx)] draws
    is the renderable's own business. *)
Record Renderable : Type := mk_renderable {
  id : nat;
  layer : option RenderLayer;
  visible : option bool
}.

Section Defs.
Context {num : Type} {N : Number num}.

(** [Required<ChartConfig>], without the container. *)
Record Config : Type := mk_config {
  cfg_width : num;
  cfg_height : num;
  cfg_margin : Margin.t num;
  backgroundColor : string
}.

(** The fields that [add], [render] and [update] read or write. *)
Record t : Type := mk {
  renderer : CanvasRenderer.t num;
  coordinateSystem : CoordinateSystem.t num;
  renderables : JsMap.t RenderLayer (list Renderable);
  config : Config
}.

(** The config the constructor keeps; [margin] and [bg] are optional
    in [ChartConfig]. *)
Definition resolve (w h : num) (margin : option (Margin.t num))
    (bg : option string) : Config :=
  {| cfg_width := w; cfg_height := h;
     cfg_margin :=
       default {| Margin.top := num_lit 20; Margin.right := num_lit 20;
                  Margin.bottom := num_lit 40; Margin.left := num_lit 50 |}
               margin;
     backgroundColor := default "#ffffff"%string bg |}.

(** What the constructor builds when it returns. *)
Definition constructed (w h : num) (margin : option (Margin.t num))
    (bg : option string) (ratio : num) : t :=
  let cfg := resolve w h margin bg in
  {| renderer :=
       fst (CanvasRenderer.constructed (cfg_width cfg) (cfg_height cfg) ratio);
     coordinateSystem :=
       CoordinateSystem.new (cfg_width cfg) (cfg_height cfg) (cfg_margin cfg);
     renderables := [];
     config := cfg |}.

(** The module scope of chart.ts and canvas-renderer.ts. *)
Context (scope : Scope.t).

(** The constructor.  The pixel ratio is the window's.  The event
    manager is built on the canvas of [RenderLayer.Interaction]. *)
Definition new (w h : num) (margin : option (Margin.t num))
    (bg : option string) (ratio : num) : Exec.result t :=
  let cfg := resolve w h margin bg in
  match CanvasRenderer.new scope (cfg_width cfg) (cfg_height cfg) ratio with
  | Exec.Throw msg => Exec.Throw msg
  | Exec.Ok (r, _) =>
      let coordinateSystem :=
        CoordinateSystem.new (cfg_width cfg) (cfg_height cfg) (cfg_margin cfg) in
      match Scope.member scope Interaction with
      | Exec.Throw msg => Exec.Throw msg
      | Exec.Ok interaction =>
          match CanvasRenderer.getLayer interaction r with
          | Exec.Throw msg => Exec.Throw msg
          | Exec.Ok _ =>
              Exec.Ok {| renderer := r; coordinateSystem := coordinateSystem;
                         renderables := []; config := cfg |}
          end
      end
  end.

Definition set_renderables (m : JsMap.t RenderLayer (list Renderable)) (c : t) : t :=
  {| renderer := renderer c; coordinateSystem := coordinateSystem c;
     renderables := m; config := config c |}.

Definition set_renderer (r : CanvasRenderer.t num) (c : t) : t :=
  {| renderer := r; coordinateSystem := coordinateSystem c;
     renderables := renderables c; config := config c |}.

(** The rest of [add(renderable)], once [layer] is known. *)
Definition push (l : RenderLayer) (renderable : Renderable) (c : t) : t :=
  let m := if JsMap.has l (renderables c) then renderables c
           else JsMap.set l [] (renderables c) in
  match JsMap.get l m with
  | Some bucket => set_renderables (JsMap.set l (bucket ++ [renderable]) m) c
  | None => set_renderables m c
  end.

Local Open Scope exec_scope.

(** [add(renderable)].  [renderable.layer ?? RenderLayer.Data]
    evaluates [RenderLayer.Data] only when the renderable names no
    layer. *)
Definition add (renderable : Renderable) : Exec.M t unit :=
  do l <- (fun c =>
             (match layer renderable with
              | Some l => Exec.Ok l
              | None => Scope.member scope Data
              end, c));
  Exec.modify (push l renderable).

(** The state [render()] runs in: the chart and what has been done to
    the surfaces so far. *)
Definition st : Type := t * list (Draw.event num).

Definition emit (es : list (Draw.event num)) : Exec.M st unit :=
  Exec.modify (fun s => (fst s, snd s ++ es)).

Definition lift {A : Type} (r : Exec.result A) : Exec.M st A :=
  fun s => (r, s).

Definition clearAll : Exec.M st unit :=
  Exec.modify (fun s =>
    let '(r, es) := CanvasRenderer.clearAll (renderer (fst s)) in
    (set_renderer r (fst s), snd s ++ es)).

Definition getContext (l : RenderLayer) : Exec.M st RenderLayer :=
  fun s => (CanvasRenderer.getContext l (renderer (fst s)), s).

(** What [render(ctx)] of a renderable does when it is called with
    the context of a layer: return, or throw. *)
Context (behaviour : Renderable -> RenderLayer -> Exec.result unit).

(** [render()] *)
Definition render : Exec.M st unit :=
  (* Clear all layers *)
  do _ <- clearAll;
  (* Draw background *)
  do background <- lift (Scope.member scope Background);
  do bgCtx <- getContext background;
  do c <- Exec.get;
  do _ <- emit [Draw.OnContext bgCtx
                  (Draw.set_fillStyle (backgroundColor (config (fst c))))];
  do _ <- emit [Draw.OnContext bgCtx
                  (Draw.fillRect num_zero num_zero
                     (cfg_width (config (fst c))) (cfg_height (config (fst c))))];
  (* Render each layer in order *)
  do layers <- lift (Scope.members scope
                       [Background; Grid; Data; Interaction; Overlay]);
  Exec.for_each layers
    (fun layer =>
       do s <- Exec.get;
       match JsMap.get layer (renderables (fst s)) with
       | None => Exec.ret tt
       | Some components =>
           do ctx <- getContext layer;
           Exec.for_each components
             (fun component =>
                match visible component with
                | Some false => Exec.ret tt
                | _ =>
                    do _ <- emit [Draw.RenderCall (id component) ctx];
                    lift (behaviour component ctx)
                end)
       end).

(** One call of [render()] on a chart: how it ended, the chart it
    left, and what it did to the surfaces. *)
Definition run_render (c : t) : Exec.result unit * st := render (c, []).

(** [Partial<ChartConfig>], as far as [update] reads it. *)
Record PartialConfig : Type := mk_partial_config {
  new_width : option num;
  new_height : option num;
  new_margin : option (Margin.t num)
}.

(** The first block of [update]: when a width or a height is given,
    both are resolved against the current config and handed to the
    renderer and to the coordinate system. *)
Definition update_size (p : PartialConfig) : Exec.M st unit :=
  match new_width p, new_height p with
  | None, None => Exec.ret tt
  | _, _ =>
      Exec.modify (fun s =>
        let c := fst s in
        let width := default (cfg_width (config c)) (new_width p) in
        let height := default (cfg_height (config c)) (new_height p) in
        let '(r, es) := CanvasRenderer.resize width height (renderer c) in
        ({| renderer := r;
            coordinateSystem :=
              CoordinateSystem.resize width height (coordinateSystem c);
            renderables := renderables c;
            config := {| cfg_width := width; cfg_height := height;
                         cfg_margin := cfg_margin (config c);
                         backgroundColor := backgroundColor (config c) |} |},
         snd s ++ es))
  end.

(** The second block of [update]: a given margin is spread over the
    config's, and the result is handed to [setMargin]. *)
Definition update_margin (p : PartialConfig) : Exec.M st unit :=
  match new_margin p with
  | None => Exec.ret tt
  | Some m =>
      Exec.modify (fun s =>
        let c := fst s in
        let margin := Margin.spread (cfg_margin (config c)) (Margin.full m) in
        ({| renderer := renderer c;
            coordinateSystem :=
              CoordinateSystem.setMargin (Margin.full margin) (coordinateSystem c);
            renderables := renderables c;
            config := {| cfg_width := cfg_width (config c);
                         cfg_height := cfg_height (config c);
                         cfg_margin := margin;
                         backgroundColor := backgroundColor (config c) |} |},
         snd s))
  end.

(** [update(config?)] *)
Definition update (cfg : option PartialConfig) : Exec.M st unit :=
  do _ <- match cfg with
          | Some p => update_size p
          | None => Exec.ret tt
          end;
  do _ <- match cfg with
          | Some p => update_margin p
          | None => Exec.ret tt
          end;
  render.

Definition run_update (cfg : option PartialConfig) (c : t)
  : Exec.result unit * st := update cfg (c, []).

(** The config, the surfaces and the coordinate system agree on the
    size and on the margin. *)
Definition in_step (c : t) : Prop :=
  CanvasRenderer.width (renderer c) = cfg_width (config c)
  /\ CanvasRenderer.height (renderer c) = cfg_height (config c)
  /\ CoordinateSystem.width (coordinateSystem c) = cfg_width (config c)
  /\ CoordinateSystem.height (coordinateSystem c) = cfg_height (config c)
  /\ CoordinateSystem.margin (coordinateSystem c) = cfg_margin (config c)
  /\ CanvasRenderer.uniform (renderer c).

(** *** The parts of a frame *)

(** The renderer has its five layers (it has not been destroyed). *)
Definition live (r : CanvasRenderer.t num) : Prop :=
  JsMap.keys (layers r) = layerOrder.

Definition shown (component : Renderable) : bool :=
  match visible component with Some false => false | _ => true end.

(** What [clearAll] does to the surfaces: one [clearRect] over the
    whole canvas of each layer. *)
Definition clears (r : CanvasRenderer.t num) : list (Draw.event num) :=
  map (fun e => Draw.OnContext (fst e)
                  (Draw.clearRect num_zero num_zero
                     (CanvasLayer.canvas_width (snd e))
                     (CanvasLayer.canvas_height (snd e))))
      (layers r).

Definition background_fill (c : t) : list (Draw.event num) :=
  [Draw.OnContext Background (Draw.set_fillStyle (backgroundColor (config c)));
   Draw.OnContext Background
     (Draw.fillRect num_zero num_zero
        (cfg_width (config c)) (cfg_height (config c)))].

(** The renderables of one layer that are not hidden, in insertion
    order, each with the layer whose context it is drawn with; and
    those of all layers, in layer order. *)
Definition calls_of (c : t) (l : RenderLayer) : list (Renderable * RenderLayer) :=
  match JsMap.get l (renderables c) with
  | Some components =>
      map (fun component => (component, l))
          (filter (fun component => shown component = true) components)
  | None => []
  end.

Definition frame_calls (c : t) : list (Renderable * RenderLayer) :=
  flat_map (calls_of c) layerOrder.

(** The call [render(ctx)] of a renderable, as the surfaces see it. *)
Definition drawn (call : Renderable * RenderLayer) : Draw.event num :=
  Draw.RenderCall (id (fst call)) (snd call).

Definition returns (call : Renderable * RenderLayer) : Prop :=
  behaviour (fst call) (snd call) = Exec.Ok tt.

(** Calls made one after the other until one throws: the calls that
    are made, and how the run ends. *)
Fixpoint run_calls (calls : list (Renderable * RenderLayer))
  : list (Renderable * RenderLayer) * Exec.result unit :=
  match calls with
  | [] => ([], Exec.Ok tt)
  | call :: rest =>
      match behaviour (fst call) (snd call) with
      | Exec.Ok _ => let '(made, r) := run_calls rest in (call :: made, r)
      | Exec.Throw msg => ([call], Exec.Throw msg)
      end
  end.

Definition all_dirty (r : CanvasRenderer.t num) : CanvasRenderer.t num :=
  set_layers
    (map (fun e => (fst e, CanvasLayer.set_dirty true (snd e))) (layers r)) r.

(** C1 as the specification states it: [render()] clears no surface. *)
Definition render_clears_no_surface (c : t) : Prop :=
  forall e, e ∈ snd (snd (run_render c)) -> Draw.is_clear e = false.

End Defs.
Arguments t num : clear implicits.
Arguments Config num : clear implicits.
Arguments PartialConfig num : clear implicits.

(** *** Sample states *)

(** Renderables that return. *)
Definition quiet (component : Renderable) (ctx : RenderLayer) : Exec.result unit :=
  Exec.Ok tt.

(** Renderables of which the one with [id] 0 throws. *)
Definition faulty (component : Renderable) (ctx : RenderLayer) : Exec.result unit :=
  if Nat.eqb (id component) 0 then Exec.Throw "render failed" else Exec.Ok tt.

(** An 800 by 600 chart over the integers, pixel ratio 1, default
    margin and background, with four renderables: one on the default
    layer, one hidden on the grid layer, one on the background layer
    and a second one on the default layer; as the constructor and four
    calls of [add] build it with [RenderLayer] bound. *)
Definition chart0 : t Z :=
  let add renderable c := snd (add Scope.Bound renderable c) in
  add {| id := 3%nat; layer := None; visible := Some true |}
    (add {| id := 2%nat; layer := Some Background; visible := Some true |}
       (add {| id := 1%nat; layer := Some Grid; visible := Some false |}
          (add {| id := 0%nat; layer := None; visible := None |}
             (constructed 800 600 None None 1)))).

End Chart.

(* ================================================================== *)
(** ** interactions/events/event-manager.ts *)

Module EventManager.

Definition eventTypes : list EventType :=
  [click; mousemove; mouseenter; mouseleave; mousedown; mouseup;
   touchstart; touchmove; touchend].

(** An [EventHandler] is a function; [on] and [off] go by its
    identity. *)
Definition EventHandler : Type := nat.

(** A JavaScript [Set] of handlers, in insertion order. *)
Definition set_add (h : EventHandler) (s : list EventHandler) : list EventHandler :=
  if decide (h ∈ s) then s else s ++ [h].

Definition set_delete (h : EventHandler) (s : list EventHandler) : list EventHandler :=
  filter (fun h' => h' ≠ h) s.

Section Defs.
Context {num : Type} {N : Number num}.

Record Touch : Type := mk_touch { touch_clientX : num; touch_clientY : num }.

(** The events a listener of the canvas is handed. *)
Inductive DomEvent : Type :=
  | MouseEvent (clientX clientY : num)
  | TouchEvent (touches : list Touch)
  | OtherEvent.

Record NormalizedEvent : Type := mk_event {
  type : EventType;
  point : Point.t num;
  originalEvent : DomEvent
}.

(** The canvas: the origin of [getBoundingClientRect()] and the event
    types a listener is attached for. *)
Record Canvas : Type := mk_canvas {
  rect_left : num;
  rect_top : num;
  listeners : list EventType
}.

Record t : Type := mk {
  canvas : Canvas;
  handlers : JsMap.t EventType (list EventHandler);
  boundListeners : list EventType
}.

Definition addEventListener (ty : EventType) (c : Canvas) : Canvas :=
  {| rect_left := rect_left c; rect_top := rect_top c;
     listeners := listeners c ++ [ty] |}.

Definition removeEventListener (ty : EventType) (c : Canvas) : Canvas :=
  {| rect_left := rect_left c; rect_top := rect_top c;
     listeners := filter (fun ty' => ty' ≠ ty) (listeners c) |}.

Definition setupEventListeners (em : t) : t :=
  fold_left
    (fun em ty =>
       {| canvas := addEventListener ty (canvas em);
          handlers := handlers em;
          boundListeners := boundListeners em ++ [ty] |})
    eventTypes em.

Definition new (c : Canvas) : t :=
  setupEventListeners {| canvas := c; handlers := []; boundListeners := [] |}.

Definition getEventPoint (event : DomEvent) (em : t) : option (Point.t num) :=
  match event with
  | MouseEvent clientX clientY =>
      Some {| Point.x := num_sub clientX (rect_left (canvas em));
              Point.y := num_sub clientY (rect_top (canvas em)) |}
  | TouchEvent touches =>
      if (0 <? length touches)%nat then
        match touches !! 0%nat with
        | Some touch =>
            Some {| Point.x := num_sub (touch_clientX touch) (rect_left (canvas em));
                    Point.y := num_sub (touch_clientY touch) (rect_top (canvas em)) |}
        | None => None
        end
      else None
  | OtherEvent => None
  end.

(** The handlers registered for an event type, in registration order. *)
Definition registered (ty : EventType) (em : t) : list EventHandler :=
  default [] (JsMap.get ty (handlers em)).

(** What a handler does when called: return, or throw. *)
Context (behaviour : EventHandler -> NormalizedEvent -> Exec.result unit).

(** [for (const handler of handlers) handler(normalizedEvent)]: the
    calls made, in order, and how the loop ended. *)
Fixpoint dispatch (hs : list EventHandler) (e : NormalizedEvent)
  : list (EventHandler * NormalizedEvent) * Exec.result unit :=
  match hs with
  | [] => ([], Exec.Ok tt)
  | h :: hs' =>
      match behaviour h e with
      | Exec.Ok _ =>
          let '(calls, r) := dispatch hs' e in ((h, e) :: calls, r)
      | Exec.Throw msg => ([(h, e)], Exec.Throw msg)
      end
  end.

Definition handleEvent (ty : EventType) (event : DomEvent) (em : t)
  : list (EventHandler * NormalizedEvent) * Exec.result unit :=
  match getEventPoint event em with
  | None => ([], Exec.Ok tt)
  | Some p =>
      let normalizedEvent :=
        {| type := ty; point := p; originalEvent := event |} in
      match JsMap.get ty (handlers em) with
      | Some hs => dispatch hs normalizedEvent
      | None => ([], Exec.Ok tt)
      end
  end.

(** The canvas receives an event of type [ty]: the listener bound for
    [ty], if one is attached, runs [handleEvent]. *)
Definition deliver (ty : EventType) (event : DomEvent) (em : t)
  : list (EventHandler * NormalizedEvent) * Exec.result unit :=
  if decide (ty ∈ listeners (canvas em)) then handleEvent ty event em
  else ([], Exec.Ok tt).

Definition set_handlers (m : JsMap.t EventType (list EventHandler)) (em : t) : t :=
  {| canvas := canvas em; handlers := m; boundListeners := boundListeners em |}.

Definition on (ty : EventType) (handler : EventHandler) (em : t) : t :=
  let m := if JsMap.has ty (handlers em) then handlers em
           else JsMap.set ty [] (handlers em) in
  match JsMap.get ty m with
  | Some s => set_handlers (JsMap.set ty (set_add handler s) m) em
  | None => set_handlers m em
  end.

Definition off (ty : EventType) (handler : EventHandler) (em : t) : t :=
  match JsMap.get ty (handlers em) with
  | Some s => set_handlers (JsMap.set ty (set_delete handler s) (handlers em)) em
  | None => em
  end.

Definition destroy (em : t) : t :=
  {| canvas := fold_left (fun c ty => removeEventListener ty c)
                 (boundListeners em) (canvas em);
     handlers := [];
     boundListeners := [] |}.

(** What a program registers and unregisters over time. *)
Inductive registration : Type :=
  | On (ty : EventType) (handler : EventHandler)
  | Off (ty : EventType) (handler : EventHandler).

Definition register (em : t) (r : registration) : t :=
  match r with
  | On ty handler => on ty handler em
  | Off ty handler => off ty handler em
  end.

Definition register_all (rs : list registration) (em : t) : t :=
  fold_left register rs em.

End Defs.
Arguments t num : clear implicits.
Arguments Touch num : clear implicits.
Arguments DomEvent num : clear implicits.
Arguments NormalizedEvent num : clear implicits.
Arguments Canvas num : clear implicits.

(** *** Sample states *)

(** A manager on a canvas whose rectangle starts at [(10, 20)], with
    the handlers 7 and 8 registered for [touchmove], 7 twice. *)
Definition em0 : t Z :=
  on touchmove 8%nat
    (on touchmove 7%nat
       (on touchmove 7%nat
          (new {| rect_left := 10; rect_top := 20; listeners := [] |}))).

(** Handlers that return. *)
Definition quiet (h : EventHandler) (e : NormalizedEvent Z) : Exec.result unit :=
  Exec.Ok tt.

End EventManager.

(* ================================================================== *)
(** ** primitives/scales/scale-manager.ts *)

Module ScaleManager.

(** Values of one kind that the relational operators order: numbers,
    or dates by their time value.  [js_ltb a b] is [a < b], [js_geb a b]
    is [a >= b], and [js_nullish v] is [v == null], which holds of
    [null] and of [undefined]. *)
Class Comparable (V : Type) : Type := {
  js_ltb : V -> V -> bool;
  js_geb : V -> V -> bool;
  js_nullish : V -> bool
}.

#[export] Instance Z_Comparable : Comparable Z :=
  {| js_ltb := Z.ltb; js_geb := Z.geb; js_nullish := fun _ => false |}.

(** Numbers, and dates by their time value: NaN is neither below nor
    at least any value, itself included. *)
#[export] Instance float_Comparable : Comparable float :=
  {| js_ltb := PrimFloat.ltb;
     js_geb := fun a b => PrimFloat.leb b a;
     js_nullish := fun _ => false |}.

(** Whether two binary64 values are the same value can be decided.
    (The continuous branch of [computeDomain] compares no two values
    for identity.) *)
Definition float_eq_dec : EqDecision float.
Proof.
  intros x y. destruct (PrimFloat.Leibniz.eqb x y) eqn:E.
  - left. by apply FloatAxioms.Leibniz.eqb_spec.
  - right. intros H. apply FloatAxioms.Leibniz.eqb_spec in H. congruence.
Defined.

(** A result that may be missing: [None] is [undefined], which no
    comparison holds of. *)
#[export] Instance option_Comparable {V : Type} {O : Comparable V}
  : Comparable (option V) :=
  {| js_ltb := fun a b =>
       match a, b with Some x, Some y => js_ltb x y | _, _ => false end;
     js_geb := fun a b =>
       match a, b with Some x, Some y => js_geb x y | _, _ => false end;
     js_nullish := fun a =>
       match a with Some x => js_nullish x | None => true end |}.

Section Defs.
Context {T V : Type} `{EqDecision V} {O : Comparable V}.

(** A value that [extent] takes into account: it is not [null] or
    [undefined], and it is [>=] itself, which NaN and an invalid date
    are not. *)
Definition comparable (value : V) : bool :=
  negb (js_nullish value) && js_geb value value.

(** Modelled from the spec: one step of the loop of [extent], on the
    minimum and the maximum found so far, if any. *)
Definition extent_step (acc : option (V * V)) (value : V) : option (V * V) :=
  if js_nullish value then acc
  else
    match acc with
    | None => if js_geb value value then Some (value, value) else None
    | Some (min, max) =>
        Some (if js_ltb value min then value else min,
              if js_ltb max value then value else max)
    end.

(** Modelled from the spec: [extent] is d3-array's, imported from
    outside the repository.  The specification calls it "the
    numeric/date extent (min, max) over accessor results".  The
    library takes it in natural order over the values that are
    comparable: it goes through the values once, skips a value that is
    [null] or [undefined], starts with the first value that is [>=]
    itself, and from then on replaces the minimum by a value below it
    and the maximum by a value above it.  Both components are
    [undefined] when no value is comparable, which is the case
    [computeDomain] tests for. *)
Definition extent (values : list V) : option V * option V :=
  match fold_left extent_step values None with
  | Some (min, max) => (Some min, Some max)
  | None => (None, None)
  end.

(** [new Set(values)]: each value is added in turn; a value already in
    the set is not added again.  [Array.from] lists the set in
    insertion order. *)
Definition Set_add (s : list V) (v : V) : list V :=
  if decide (v ∈ s) then s else s ++ [v].

Definition Array_from_Set (values : list V) : list V :=
  fold_left Set_add values [].

Definition categorical (scaleType : ScaleType) : bool :=
  match scaleType with
  | band | point | ordinal => true
  | _ => false
  end.

(** [computeDomain(data, accessor, scaleType)] *)
Definition computeDomain (data : list T) (accessor : T -> nat -> V)
    (scaleType : ScaleType) : Exec.result (list V) :=
  if categorical scaleType then
    (* Categorical scales - extract unique values *)
    let values := imap (fun i d => accessor d i) data in
    Exec.Ok (Array_from_Set values)
  else
    (* Continuous scales - compute extent *)
    let values := imap (fun i d => accessor d i) data in
    match extent values with
    | (Some minVal, Some maxVal) => Exec.Ok [minVal; maxVal]
    | _ => Exec.Throw "Cannot compute domain: no valid data"
    end.

(** [<] orders the values: nothing is below itself, what is below a
    value is below every value above it, and two values of which one
    is below the other are each [>=] itself. *)
Definition ordered : Prop :=
  (forall a : V, js_ltb a a = false)
  /\ (forall a b c : V, js_ltb a b = true -> js_ltb b c = true -> js_ltb a c = true)
  /\ (forall a b : V, js_ltb a b = true -> js_geb a a = true /\ js_geb b b = true).

End Defs.

(** *** The words of the specification *)

Section Distinct.
Context {V : Type} `{EqDecision V}.

(** The distinct values of a list in first-seen order: each value is
    kept where it first occurs, and its later occurrences are
    dropped. *)
Fixpoint first_seen (values : list V) : list V :=
  match values with
  | [] => []
  | v :: vs => v :: filter (fun v' => v' ≠ v) (first_seen vs)
  end.

End Distinct.

(** The accessor results, [data.map((d, i) => accessor(d, i))]. *)
Definition results {T V : Type} (data : list T) (accessor : T -> nat -> V) : list V :=
  imap (fun i d => accessor d i) data.

(** C4 as the specification states it, for a continuous variant: on
    an empty dataset [computeDomain] fails, on any other it returns
    two values. *)
Definition fails_only_on_empty_data {T V : Type} `{EqDecision V} {O : Comparable V}
    (data : list T) (accessor : T -> nat -> V) (scaleType : ScaleType) : Prop :=
  match data with
  | [] => computeDomain data accessor scaleType
          = Exec.Throw "Cannot compute domain: no valid data"
  | _ => exists lo hi, computeDomain data accessor scaleType = Exec.Ok [lo; hi]
  end.

End ScaleManager.

(* ================================================================== *)
(** ** charts/bar/bar-chart.ts *)

Module BarChart.

(** [Math.abs] *)
Class Abs (num : Type) : Type := { num_abs : num -> num }.

#[export] Instance float_Abs : Abs float := {| num_abs := PrimFloat.abs |}.
#[export] Instance Z_Abs : Abs Z := {| num_abs := Z.abs |}.

Inductive Orientation : Type := vertical | horizontal.

Section Defs.
Context {num : Type} {N : Number num} {A : Abs num}.
Context {T X : Type}.

(** An [AnyScale], as far as the chart uses it: a function whose
    result is a number or [undefined] ([None]), and [bandwidth()] for
    the scales that have one. *)
Record Scale (D : Type) : Type := mk_scale {
  scale_of : D -> option num;
  bandwidth : option num
}.
Arguments scale_of {D} _ _.
Arguments bandwidth {D} _.

(** The fields of the config that hit testing reads. *)
Record Config : Type := mk_config {
  data : list T;
  x : T -> nat -> X;
  y : T -> nat -> num;
  xScale : Scale X;
  yScale : Scale num;
  orientation : Orientation
}.

(** The test of [findBarAtPoint] for one datum.  A comparison with
    [undefined], and one with a number computed from [undefined]
    ([Math.min], [Math.abs], [+] and [-] give NaN), is false. *)
Definition hit (c : Config) (px py : num) (datum : T) (i : nat) : bool :=
  let xVal := x c datum i in
  let yVal := y c datum i in
  match scale_of (xScale c) xVal, scale_of (yScale c) yVal,
        scale_of (yScale c) num_zero with
  | Some barX, Some barY, Some y0 =>
      let barWidth := default num_zero (bandwidth (xScale c)) in
      let barHeight := num_abs (num_sub y0 barY) in
      num_leb barX px
      && num_leb px (num_add barX barWidth)
      && num_leb (num_min barY y0) py
      && num_leb py (num_add (num_min barY y0) barHeight)
  | _, _, _ => false
  end.

(** The loop of [findBarAtPoint], from index [i] on.  A datum is an
    object, so [if (!datum) continue] skips nothing. *)
Fixpoint find_from (c : Config) (px py : num) (i : nat) (rest : list T)
  : option (T * nat) :=
  match rest with
  | [] => None
  | datum :: rest' =>
      match orientation c with
      | vertical =>
          if hit c px py datum i then Some (datum, i)
          else find_from c px py (S i) rest'
      | horizontal => find_from c px py (S i) rest'
      end
  end.

(** [findBarAtPoint(x, y)] *)
Definition findBarAtPoint (c : Config) (px py : num) : option (T * nat) :=
  find_from c px py 0%nat (data c).

End Defs.
Arguments Scale num D : clear implicits.
Arguments scale_of {num D} _ _.
Arguments bandwidth {num D} _.
Arguments Config num T X : clear implicits.

(** *** Sample states *)

(** Three bars of width 10 at [x = 0, 20, 40], on a baseline at
    [y = 100] that grows upwards one pixel per unit. *)
Definition bars (o : Orientation) : Config Z Z Z :=
  {| data := [30; 60; 10];
     x := fun _ i => Z.of_nat i;
     y := fun d _ => d;
     xScale := {| scale_of := fun k => Some (20 * k); bandwidth := Some 10 |};
     yScale := {| scale_of := fun v => Some (100 - v); bandwidth := None |};
     orientation := o |}.

End BarChart.

(* ================================================================== *)
(** * Properties *)

(** ** Comparison, [Math.max] and [Math.min] on binary64 *)

Module JsFacts.

Lemma SFcompare_antisym (a b : spec_float) (c : comparison) :
  SFcompare a b = Some c -> SFcompare b a = Some (CompOpp c).
Proof.
  destruct a as [sa|sa| |sa ma ea], b as [sb|sb| |sb mb eb]; simpl;
    try discriminate; intros [= <-];
    try (destruct sa; reflexivity); try (destruct sb; reflexivity);
    try (destruct sa, sb; reflexivity).
  destruct sa, sb; try reflexivity;
    rewrite (Z.compare_antisym ea eb);
    destruct (ea ?= eb)%Z; simpl; try reflexivity;
    rewrite (Pos.compare_cont_antisym); simpl; try reflexivity.
  rewrite CompOpp_involutive. reflexivity.
Qed.

(** Two values that compare equal are the same value, or two zeros. *)
Lemma SFcompare_Eq (a b : spec_float) :
  SFcompare a b = Some Eq ->
  a = b \/ ((exists s, a = S754_zero s) /\ (exists s, b = S754_zero s)).
Proof.
  destruct a as [sa|sa| |sa ma ea], b as [sb|sb| |sb mb eb]; simpl;
    try discriminate;
    try (right; split; eexists; reflexivity);
    try (destruct sa; discriminate); try (destruct sb; discriminate).
  - destruct sa, sb; try discriminate; auto.
  - destruct sa, sb; try discriminate;
      destruct (ea ?= eb)%Z eqn:He; try discriminate;
      apply Z.compare_eq in He; subst; intros [= Hm].
    + left. f_equal.
      destruct (Pos.compare_cont Eq ma mb) eqn:E; try discriminate.
      now apply Pos.compare_eq in E.
    + left. f_equal. now apply Pos.compare_eq in Hm.
Qed.

Lemma ltb_compare (a b : float) :
  PrimFloat.ltb a b = true <-> SFcompare (Prim2SF a) (Prim2SF b) = Some Lt.
Proof.
  rewrite FloatAxioms.ltb_spec. unfold SFltb.
  destruct (SFcompare _ _) as [[]|]; split; congruence.
Qed.

Lemma is_nan_compare (a b : float) :
  PrimFloat.is_nan a = false -> PrimFloat.is_nan b = false ->
  exists c, SFcompare (Prim2SF a) (Prim2SF b) = Some c.
Proof.
  unfold PrimFloat.is_nan. rewrite !FloatAxioms.eqb_spec. unfold SFeqb.
  destruct (Prim2SF a), (Prim2SF b); simpl; try discriminate; eauto.
Qed.

Lemma ltb_asym (a b : float) :
  PrimFloat.ltb a b = true -> PrimFloat.ltb b a = false.
Proof.
  intros H. apply ltb_compare in H. apply SFcompare_antisym in H.
  destruct (PrimFloat.ltb b a) eqn:E; [|reflexivity].
  apply ltb_compare in E. simpl in H. congruence.
Qed.

Lemma ltb_irrefl (a : float) : PrimFloat.ltb a a = false.
Proof.
  destruct (PrimFloat.ltb a a) eqn:E; [|reflexivity].
  rewrite (ltb_asym _ _ E) in E. discriminate.
Qed.

(** Numbers of which neither is below the other are equal, or are the
    two zeros. *)
Lemma ltb_neither (a b : float) :
  PrimFloat.is_nan a = false -> PrimFloat.is_nan b = false ->
  PrimFloat.ltb a b = false -> PrimFloat.ltb b a = false ->
  a = b \/ (is_zero_class (PrimFloat.classify a) = true
            /\ is_zero_class (PrimFloat.classify b) = true).
Proof.
  intros Ha Hb Hab Hba.
  destruct (is_nan_compare a b Ha Hb) as [c Hc].
  pose proof (SFcompare_antisym _ _ _ Hc) as Hc'.
  destruct c.
  - destruct (SFcompare_Eq _ _ Hc) as [E|[[s Hs] [s' Hs']]].
    + left. now apply Prim2SF_inj.
    + right. rewrite !FloatAxioms.classify_spec, Hs, Hs'. destruct s, s'; auto.
  - apply ltb_compare in Hc. congruence.
  - simpl in Hc'. apply ltb_compare in Hc'. congruence.
Qed.

Lemma classify_zero_eq (a b : float) :
  PrimFloat.classify a = PrimFloat.classify b ->
  is_zero_class (PrimFloat.classify a) = true -> a = b.
Proof.
  rewrite !FloatAxioms.classify_spec. intros E Hz. apply Prim2SF_inj.
  unfold SF64classify, SFclassify in *.
  destruct (Prim2SF a) as [[]|[]| |[] ? ?], (Prim2SF b) as [[]|[]| |[] ? ?];
    simpl in *; try discriminate; try reflexivity;
    repeat match goal with
      | H : context [if ?c then _ else _] |- _ => destruct c
      end; discriminate.
Qed.

Lemma float_min_self (a : float) :
  PrimFloat.is_nan a = false -> float_min a a = a.
Proof.
  intros Ha. unfold float_min. rewrite Ha, ltb_irrefl. simpl.
  destruct (PrimFloat.classify a); reflexivity.
Qed.

Lemma float_max_self (a : float) :
  PrimFloat.is_nan a = false -> float_max a a = a.
Proof.
  intros Ha. unfold float_max. rewrite Ha, ltb_irrefl. simpl.
  destruct (PrimFloat.classify a); reflexivity.
Qed.

(** Without a NaN, [Math.min] and [Math.max] return one of their
    arguments. *)
Lemma float_min_cases (a b : float) :
  PrimFloat.is_nan a = false -> PrimFloat.is_nan b = false ->
  float_min a b = a \/ float_min a b = b.
Proof.
  intros Ha Hb. unfold float_min. rewrite Ha, Hb. simpl.
  destruct (PrimFloat.ltb a b), (PrimFloat.ltb b a), (PrimFloat.classify a); auto.
Qed.

Lemma float_max_cases (a b : float) :
  PrimFloat.is_nan a = false -> PrimFloat.is_nan b = false ->
  float_max a b = a \/ float_max a b = b.
Proof.
  intros Ha Hb. unfold float_max. rewrite Ha, Hb. simpl.
  destruct (PrimFloat.ltb a b), (PrimFloat.ltb b a), (PrimFloat.classify a); auto.
Qed.

Lemma float_max_nan_r (a : float) : float_max a PrimFloat.nan = PrimFloat.nan.
Proof.
  unfold float_max.
  replace (PrimFloat.is_nan PrimFloat.nan) with true by reflexivity.
  now rewrite orb_true_r.
Qed.

Lemma float_min_nan_r (a : float) : float_min a PrimFloat.nan = PrimFloat.nan.
Proof.
  unfold float_min.
  replace (PrimFloat.is_nan PrimFloat.nan) with true by reflexivity.
  now rewrite orb_true_r.
Qed.

(** Clamping the lower bound gives the lower bound, whichever way the
    two bounds are ordered. *)
Lemma float_max_min_lo (lo hi : float) :
  PrimFloat.is_nan lo = false -> PrimFloat.is_nan hi = false ->
  float_max lo (float_min hi lo) = lo.
Proof.
  intros Hlo Hhi.
  destruct (PrimFloat.ltb hi lo) eqn:E1.
  - unfold float_min. rewrite Hlo, Hhi, E1. simpl.
    unfold float_max. rewrite Hlo, Hhi, (ltb_asym _ _ E1), E1. reflexivity.
  - destruct (PrimFloat.ltb lo hi) eqn:E2.
    + unfold float_min. rewrite Hlo, Hhi, E1, E2. simpl.
      now apply float_max_self.
    + destruct (ltb_neither hi lo Hhi Hlo E1 E2) as [->|[Zh Zl]].
      * rewrite float_min_self by assumption. now apply float_max_self.
      * unfold float_min. rewrite Hlo, Hhi, E1, E2. simpl.
        destruct (PrimFloat.classify hi) eqn:Ch; try discriminate.
        -- now apply float_max_self.
        -- unfold float_max. rewrite Hlo, Hhi, E1, E2. simpl.
           destruct (PrimFloat.classify lo) eqn:Cl;
             try discriminate; try reflexivity.
           apply classify_zero_eq; [congruence | now rewrite Ch].
Qed.

Lemma float_clamp_idem (lo hi x : float) :
  float_max lo (float_min hi (float_max lo (float_min hi x)))
  = float_max lo (float_min hi x).
Proof.
  destruct (PrimFloat.is_nan lo) eqn:Hlo.
  { unfold float_max at 1 3. now rewrite Hlo. }
  destruct (PrimFloat.is_nan hi) eqn:Hhi.
  { assert (forall z, float_min hi z = PrimFloat.nan) as Hn
      by (intros z; unfold float_min; now rewrite Hhi).
    now rewrite !Hn. }
  destruct (PrimFloat.is_nan x) eqn:Hx.
  { assert (float_min hi x = PrimFloat.nan) as ->
      by (unfold float_min; rewrite Hx; now rewrite orb_true_r).
    now rewrite float_max_nan_r, float_min_nan_r, float_max_nan_r. }
  destruct (float_min_cases hi x Hhi Hx) as [Hm|Hm]; rewrite Hm.
  - destruct (float_max_cases lo hi Hlo Hhi) as [Hc|Hc]; rewrite Hc.
    + now apply float_max_min_lo.
    + now rewrite float_min_self.
  - destruct (float_max_cases lo x Hlo Hx) as [Hc|Hc]; rewrite Hc.
    + now apply float_max_min_lo.
    + now rewrite Hm.
Qed.

Lemma Z_clamp_idem (lo hi x : Z) :
  Z.max lo (Z.min hi (Z.max lo (Z.min hi x))) = Z.max lo (Z.min hi x).
Proof. lia. Qed.

(** *** The order of binary64 numbers *)

Lemma SFcompare_Lt_trans (a b c : spec_float) :
  SFcompare a b = Some Lt -> SFcompare b c = Some Lt -> SFcompare a c = Some Lt.
Proof.
  destruct a as [sa|sa| |sa ma ea], b as [sb|sb| |sb mb eb],
           c as [sc|sc| |sc mc ec]; simpl;
    try discriminate;
    try (destruct sa; discriminate); try (destruct sb; discriminate);
    try (destruct sc; discriminate);
    try (destruct sa, sb; discriminate); try (destruct sb, sc; discriminate);
    try (destruct sa, sb, sc; (discriminate || reflexivity)).
  change (Pos.compare_cont Eq ma mb) with (ma ?= mb)%positive.
  change (Pos.compare_cont Eq mb mc) with (mb ?= mc)%positive.
  change (Pos.compare_cont Eq ma mc) with (ma ?= mc)%positive.
  destruct sa, sb, sc; try discriminate; try reflexivity;
    destruct (Z.compare_spec ea eb), (Z.compare_spec eb ec), (Z.compare_spec ea ec);
    try discriminate; try reflexivity; try lia; subst;
    destruct (Pos.compare_spec ma mb), (Pos.compare_spec mb mc),
             (Pos.compare_spec ma mc);
    simpl; try discriminate; try reflexivity; try lia.
Qed.

Lemma ltb_trans (a b c : float) :
  PrimFloat.ltb a b = true -> PrimFloat.ltb b c = true -> PrimFloat.ltb a c = true.
Proof.
  rewrite !ltb_compare. apply SFcompare_Lt_trans.
Qed.

Lemma SFcompare_refl (a : spec_float) :
  a <> S754_nan -> SFcompare a a = Some Eq.
Proof.
  destruct a as [s|s| |s m e]; simpl; intros H; try congruence.
  - by destruct s.
  - change (Pos.compare_cont Eq m m) with (m ?= m)%positive.
    rewrite Z.compare_refl, Pos.compare_refl. by destruct s.
Qed.

Lemma is_nan_spec (a : float) :
  PrimFloat.is_nan a = false <-> Prim2SF a <> S754_nan.
Proof.
  unfold PrimFloat.is_nan. rewrite FloatAxioms.eqb_spec. unfold SFeqb. split.
  - intros H E. rewrite E in H. discriminate H.
  - intros H. rewrite SFcompare_refl by done. done.
Qed.

(** A number is [>=] itself unless it is NaN. *)
Lemma leb_self (a : float) :
  PrimFloat.leb a a = negb (PrimFloat.is_nan a).
Proof.
  destruct (PrimFloat.is_nan a) eqn:E; simpl.
  - assert (Prim2SF a = S754_nan) as Hnan.
    { destruct (Prim2SF a) eqn:P; try reflexivity; exfalso;
        (assert (PrimFloat.is_nan a = false) as E'
           by (apply is_nan_spec; rewrite P; discriminate));
        congruence. }
    rewrite FloatAxioms.leb_spec, Hnan. reflexivity.
  - apply is_nan_spec in E. rewrite FloatAxioms.leb_spec. unfold SFleb.
    by rewrite SFcompare_refl.
Qed.

Lemma ltb_not_nan (a b : float) :
  PrimFloat.ltb a b = true ->
  PrimFloat.is_nan a = false /\ PrimFloat.is_nan b = false.
Proof.
  rewrite ltb_compare, !is_nan_spec. intros H.
  split; intros E; rewrite E in H.
  - discriminate H.
  - destruct (Prim2SF a); discriminate H.
Qed.

(** Of two numbers, one that is not above the other is at most it. *)
Lemma not_ltb_leb (a b : float) :
  PrimFloat.is_nan a = false -> PrimFloat.is_nan b = false ->
  PrimFloat.ltb b a = false -> PrimFloat.leb a b = true.
Proof.
  intros Ha Hb Hlt. destruct (is_nan_compare a b Ha Hb) as [c Hc].
  rewrite FloatAxioms.leb_spec. unfold SFleb. rewrite Hc.
  destruct c; try done.
  apply SFcompare_antisym in Hc. simpl in Hc. apply ltb_compare in Hc.
  congruence.
Qed.

(** Sanity checks of the conversion to [unsigned long]: fractions are
    truncated towards zero, negative numbers wrap around, NaN and the
    infinities give 0. *)
Example float_to_uint32_examples :
  float_to_uint32 0x1.2c6p+10%float = 1201%Z
  /\ float_to_uint32 800%float = 800%Z
  /\ float_to_uint32 (-0x1.8p+0)%float = 4294967295%Z
  /\ float_to_uint32 0x1p+32%float = 0%Z
  /\ float_to_uint32 PrimFloat.nan = 0%Z
  /\ float_to_uint32 PrimFloat.infinity = 0%Z
  /\ float_to_uint32 PrimFloat.neg_zero = 0%Z
  /\ PrimFloat.mul 801%float 0x1.8p+0%float = 0x1.2c6p+10%float.
Proof. repeat split; reflexivity. Qed.

(** Sanity checks of the binary64 operations against ECMAScript. *)
Example float_max_zeros :
  float_max PrimFloat.neg_zero PrimFloat.zero = PrimFloat.zero
  /\ float_max PrimFloat.zero PrimFloat.neg_zero = PrimFloat.zero
  /\ float_min PrimFloat.zero PrimFloat.neg_zero = PrimFloat.neg_zero
  /\ float_min PrimFloat.neg_zero PrimFloat.zero = PrimFloat.neg_zero
  /\ float_max PrimFloat.nan PrimFloat.one = PrimFloat.nan
  /\ float_min PrimFloat.one PrimFloat.infinity = PrimFloat.one
  /\ float_lit 50 = 50%float.
Proof. repeat split; reflexivity. Qed.

End JsFacts.

(* ================================================================== *)
(** ** Coordinate system *)

Module CoordinateSystemFacts.
Import CoordinateSystem.

(** With [margin.left = 50], [0.1 - 50] is rounded to the binary64
    number nearest to [-49.9], and adding [50] back gives
    [0.10000000000000142]. *)
Example round_trip_of_tenth :
  dataToScreen cs_float (screenToData cs_float p_tenth)
  = {| Point.x := 0x1.9999999999a00p-4%float; Point.y := PrimFloat.zero |}.
Proof. reflexivity. Qed.

(** On integer coordinates of this size the binary64 operations do
    not round, and the round trip is exact. *)
Example round_trip_of_integers :
  dataToScreen cs_float
    (screenToData cs_float {| Point.x := 120%float; Point.y := (-7)%float |})
  = {| Point.x := 120%float; Point.y := (-7)%float |}.
Proof. reflexivity. Qed.

(** C5, as stated, fails on binary64 numbers: for the default margins
    and the point [(0.1, 0)], [dataToScreen(screenToData(p))] is not
    [p]. *)
Lemma dataToScreen_screenToData_rounds :
  dataToScreen cs_float (screenToData cs_float p_tenth) <> p_tenth.
Proof.
  intros H. apply (f_equal (fun p => Prim2SF (Point.x p))) in H.
  vm_compute in H. discriminate H.
Qed.

(** C5, amended: over integers, where no operation rounds,
    [dataToScreen (screenToData p) = p] and
    [screenToData (dataToScreen p) = p] for every point and every
    margin, inside the plot area or not: the two transforms are
    translations by the margin and nothing is clamped. *)
Theorem dataToScreen_screenToData_exact
    (cs : CoordinateSystem.t Z) (p : Point.t Z) :
  dataToScreen cs (screenToData cs p) = p
  /\ screenToData cs (dataToScreen cs p) = p.
Proof.
  destruct p as [px py]. unfold dataToScreen, screenToData. simpl.
  split; f_equal; lia.
Qed.

(** C8: [clampToPlotArea] is idempotent, for every width, height and
    margin: on binary64 numbers (NaN, infinities and signed zeros
    included) and on integers. *)
Theorem clampToPlotArea_idempotent :
  (forall (cs : CoordinateSystem.t float) (p : Point.t float),
      clampToPlotArea cs (clampToPlotArea cs p) = clampToPlotArea cs p)
  /\ (forall (cs : CoordinateSystem.t Z) (p : Point.t Z),
      clampToPlotArea cs (clampToPlotArea cs p) = clampToPlotArea cs p).
Proof.
  split; intros cs p; unfold clampToPlotArea; simpl; f_equal.
  - apply JsFacts.float_clamp_idem.
  - apply JsFacts.float_clamp_idem.
  - apply JsFacts.Z_clamp_idem.
  - apply JsFacts.Z_clamp_idem.
Qed.

(** The clamped point lies in the plot area (integers). *)
Lemma clampToPlotArea_in_plot (cs : CoordinateSystem.t Z) (p : Point.t Z) :
  isInPlotArea cs (clampToPlotArea cs p) = true.
Proof.
  unfold isInPlotArea, clampToPlotArea, getPlotBounds, getInnerWidth,
    getInnerHeight. simpl.
  rewrite !andb_true_iff, !Z.leb_le. lia.
Qed.

(** A point of the plot area is left where it is (integers). *)
Lemma clampToPlotArea_fixes_plot (cs : CoordinateSystem.t Z) (p : Point.t Z) :
  isInPlotArea cs p = true -> clampToPlotArea cs p = p.
Proof.
  destruct p as [px py].
  unfold isInPlotArea, clampToPlotArea, getPlotBounds, getInnerWidth,
    getInnerHeight. simpl.
  rewrite !andb_true_iff, !Z.leb_le. intros H. f_equal; lia.
Qed.

(** C10: [resize] sets the width and the height and leaves the margin
    as it was; [setMargin] leaves the width and the height as they
    were, gives every supplied inset its new value and leaves every
    inset that was not supplied as it was. *)
Theorem resize_setMargin_frame {num : Type} {N : Number num}
    (cs : CoordinateSystem.t num) (w h : num) (m : Margin.partial num) :
  (width (resize w h cs) = w
   /\ height (resize w h cs) = h
   /\ margin (resize w h cs) = margin cs)
  /\ (width (setMargin m cs) = width cs
      /\ height (setMargin m cs) = height cs)
  /\ (Margin.top (margin (setMargin m cs))
        = match Margin.p_top m with Some v => v | None => Margin.top (margin cs) end
      /\ Margin.right (margin (setMargin m cs))
        = match Margin.p_right m with Some v => v | None => Margin.right (margin cs) end
      /\ Margin.bottom (margin (setMargin m cs))
        = match Margin.p_bottom m with Some v => v | None => Margin.bottom (margin cs) end
      /\ Margin.left (margin (setMargin m cs))
        = match Margin.p_left m with Some v => v | None => Margin.left (margin cs) end).
Proof.
  destruct m as [[?|] [?|] [?|] [?|]]; repeat split; reflexivity.
Qed.

(** Consequences: the translations do not see a [resize], and a
    [setMargin] that supplies nothing changes nothing. *)
Lemma resize_keeps_translation {num : Type} {N : Number num}
    (cs : CoordinateSystem.t num) (w h : num) (p : Point.t num) :
  dataToScreen (resize w h cs) p = dataToScreen cs p
  /\ screenToData (resize w h cs) p = screenToData cs p.
Proof. split; reflexivity. Qed.

Lemma setMargin_nothing {num : Type} {N : Number num}
    (cs : CoordinateSystem.t num) :
  setMargin (Margin.mk_partial None None None None) cs = cs.
Proof. destruct cs as [w h [? ? ? ?]]. reflexivity. Qed.

End CoordinateSystemFacts.

(* ================================================================== *)
(** ** Object pool *)

Module ObjectPoolFacts.
Import ObjectPool.
Local Open Scope nat_scope.

Section Facts.
Context {T : Type}.
Implicit Types (p : ObjectPool.t T) (h : heap T) (obj : ref).

Lemma removelast_subset (l : list ref) (o : ref) :
  o ∈ removelast l -> o ∈ l.
Proof.
  induction l as [|a [|b l] IH]; simpl; intros H; [done| |].
  - by apply elem_of_nil in H.
  - apply elem_of_cons in H as [->|H]; [left | right; auto].
Qed.

Lemma length_removelast_le (l : list ref) : (length (removelast l) <= length l)%nat.
Proof. induction l as [|a [|b l] IH]; simpl in *; lia. Qed.

Lemma acquire_cases p h :
  (pool p = [] /\ acquire p h = (length h, p, h ++ [factory p]))
  \/ (exists l o, pool p = l ++ [o] /\ acquire p h = (o, with_pool p l, h)).
Proof.
  unfold acquire, construct.
  destruct (pool p) as [|a l] eqn:E using rev_ind; [left; done|].
  right. exists l, a. split; [done|].
  rewrite length_app, last_snoc, removelast_last. simpl.
  replace (0 <? length l + 1)%nat with true; [done|].
  symmetry. apply Nat.ltb_lt. lia.
Qed.

Lemma inv_step (f : T) (r : T -> T) (m : option nat) (o : op)
    (s : ObjectPool.t T * heap T) :
  inv f r m s -> allowed o s -> inv f r m (step o s).
Proof.
  destruct s as [p h]. intros (Hf & Hr & Hm & Hsz & Hc) Ha.
  unfold inv, clean, size in *. simpl in *.
  destruct o as [|obj| |v|r' v]; simpl in *.
  - destruct (acquire_cases p h) as [[E ->]|(l & o & E & ->)]; simpl.
    + repeat split; try done. rewrite E. constructor.
    + repeat split; try done.
      * rewrite E, length_app in Hsz. simpl in Hsz. lia.
      * rewrite E in Hc. by apply Forall_app in Hc as [Hc _].
  - unfold release. destruct (length (pool p) <? maxSize p)%nat eqn:E; simpl.
    + apply Nat.ltb_lt in E. repeat split; try done.
      * rewrite length_app. simpl. lia.
      * apply Forall_app. split.
        -- eapply Forall_impl; [exact Hc|]. simpl. intros o [v Hv].
           destruct (decide (o = obj)) as [->|Hne].
           ++ exists (reset p v). by rewrite list_lookup_alter_eq, Hv.
           ++ exists v. by rewrite list_lookup_alter_ne.
        -- constructor; [|constructor].
           destruct (lookup_lt_is_Some_2 h obj Ha) as [v Hv].
           exists v. by rewrite list_lookup_alter_eq, Hv.
    + repeat split; done.
  - repeat split; try done; try lia; try constructor.
  - repeat split; try done.
    eapply Forall_impl; [exact Hc|]. simpl. intros o [v' Hv].
    exists v'. by apply lookup_app_l_Some.
  - repeat split; try done.
    apply Forall_forall. intros o Ho.
    rewrite Forall_forall in Hc. destruct (Hc o Ho) as [v' Hv].
    exists v'. rewrite list_lookup_insert_ne; [done|]. intros ->. done.
Qed.

Lemma reachable_inv (f : T) (r : T -> T) (m : option nat)
    (s : ObjectPool.t T * heap T) :
  reachable f r m s -> inv f r m s.
Proof.
  induction 1 as [h|o s _ IH Ha].
  - unfold inv, clean, size. simpl. repeat split; try done; try lia; try constructor.
  - by apply inv_step.
Qed.

(** [acquire] writes no object that exists. *)
Lemma acquire_keeps_objects p h (o : ref) :
  o < length h -> snd (acquire p h) !! o = h !! o.
Proof.
  intros Ho.
  destruct (acquire_cases p h) as [[_ ->]|(l & o' & _ & ->)]; simpl; [|done].
  by apply lookup_app_l.
Qed.

(** When the pool has room, [release(obj)] resets [obj] and keeps
    it, and the next [acquire()] returns that same object; this needs
    nothing of the state the pool is in. *)
Lemma release_with_room p h obj (v : T) :
  size p < maxSize p -> h !! obj = Some v ->
  release obj p h = (with_pool p (pool p ++ [obj]), <[obj := reset p v]> h)
  /\ acquire (with_pool p (pool p ++ [obj])) (<[obj := reset p v]> h)
     = (obj, with_pool p (pool p), <[obj := reset p v]> h).
Proof.
  intros Hlt Hv. split.
  - unfold release. apply Nat.ltb_lt in Hlt. unfold size in Hlt. rewrite Hlt.
    f_equal. apply list_eq. intros i.
    destruct (decide (i = obj)) as [->|Hne].
    + rewrite list_lookup_alter_eq, Hv. simpl.
      symmetry. apply list_lookup_insert_eq. by eapply lookup_lt_Some.
    + by rewrite list_lookup_alter_ne, list_lookup_insert_ne.
  - destruct (acquire_cases (with_pool p (pool p ++ [obj]))
                (<[obj := reset p v]> h)) as [[E _]|(l & o & E & ->)]; simpl in E.
    + by destruct (pool p).
    + by apply app_inj_tail in E as [-> ->].
Qed.

(** C6: take a pool whose factory builds the canonical state and
    whose [reset] restores it, as [PointPool] and [RectPool] are, in
    any state that pool operations lead to.  After [release(obj)], the
    object that [acquire()] returns is in the canonical state.  If the
    pool was empty at the [acquire], it is a new object, built by the
    factory; otherwise it is the last released object that the pool
    kept, and [acquire] writes to no object.  When [release] has room
    it resets [obj] at once, and [acquire] returns that same [obj]. *)
Theorem release_then_acquire_canonical
    (canonical f : T) (r : T -> T) (m : option nat) p h obj :
  f = canonical -> (forall v, r v = canonical) ->
  reachable f r m (p, h) -> obj < length h ->
  let s1 := release obj p h in
  let a := acquire (fst s1) (snd s1) in
  let returned := fst (fst a) in
  snd a !! returned = Some canonical
  /\ (pool (fst s1) = [] ->
        returned = length (snd s1) /\ snd a = snd s1 ++ [canonical])
  /\ (pool (fst s1) <> [] ->
        last (pool (fst s1)) = Some returned /\ snd a = snd s1)
  /\ (forall o : ref, o < length (snd s1) -> snd a !! o = snd s1 !! o)
  /\ (size p < maxSize p ->
        returned = obj /\ snd s1 !! obj = Some canonical).
Proof.
  intros Hf Hr Hreach Hobj s1 a returned.
  assert (inv f r m s1) as (Hf1 & Hr1 & _ & _ & Hc1).
  { apply (inv_step f r m (Release obj) (p, h));
      [by apply reachable_inv | exact Hobj]. }
  assert (size p < maxSize p ->
          s1 = (with_pool p (pool p ++ [obj]), alter (reset p) obj h)
          /\ snd s1 !! obj = Some canonical) as Hroom.
  { intros Hlt. subst s1. unfold release.
    apply Nat.ltb_lt in Hlt. unfold size in Hlt. rewrite Hlt. simpl.
    split; [done|].
    destruct (lookup_lt_is_Some_2 h obj Hobj) as [v Hv].
    destruct (reachable_inv _ _ _ _ Hreach) as (_ & Hrp & _). simpl in Hrp.
    rewrite list_lookup_alter_eq, Hv, Hrp. simpl. by rewrite Hr. }
  subst a returned.
  destruct (acquire_cases (fst s1) (snd s1)) as [[E Ha]|(l & o & E & Ha)];
    rewrite Ha; simpl.
  - split; [|split; [|split; [|split]]].
    + rewrite Hf1, Hf. by apply list_lookup_middle.
    + intros _. by rewrite Hf1, Hf.
    + intros Hne. by rewrite E in Hne.
    + intros o Ho. by apply lookup_app_l.
    + intros Hlt. destruct (Hroom Hlt) as [Hs1 _]. rewrite Hs1 in E.
      simpl in E. by destruct (pool p).
  - unfold clean in Hc1. rewrite E in Hc1.
    apply Forall_app in Hc1 as [_ Hc1]. apply Forall_singleton in Hc1 as [v Hv].
    rewrite Hr1, Hr in Hv.
    split; [|split; [|split; [|split]]].
    + done.
    + intros HE. rewrite E in HE. by destruct l.
    + intros _. by rewrite E, last_snoc.
    + done.
    + intros Hlt. destruct (Hroom Hlt) as [Hs1 Hobj']. split; [|done].
      rewrite Hs1 in E. simpl in E. by apply app_inj_tail in E as [_ ->].
Qed.

(** C9: in every state that pool operations lead to, the pool holds at
    most [maxSize] objects; and a [release] on a pool that holds
    [maxSize] objects leaves the pool and every object, the released
    one included, as they were. *)
Theorem size_never_exceeds_maxSize
    (f : T) (r : T -> T) (m : option nat) p h :
  reachable f r m (p, h) ->
  size p <= maxSize p
  /\ maxSize p = default 1000 m
  /\ (forall obj, size p = maxSize p -> release obj p h = (p, h)).
Proof.
  intros Hreach.
  destruct (reachable_inv _ _ _ _ Hreach) as (_ & _ & Hm & Hsz & _).
  simpl in *. repeat split; try done.
  intros obj Hfull. unfold release, size in *.
  replace (length (pool p) <? maxSize p) with false; [done|].
  symmetry. apply Nat.ltb_ge. lia.
Qed.

End Facts.

(** The theorem at [pool1]: its one object, moved to [(3, 4)] by the
    caller, is released and comes back from [acquire] at [(0, 0)]. *)
Lemma release_then_acquire_canonical_witness :
  let s1 := release 0 pool1 heap1 in
  let a := acquire (fst s1) (snd s1) in
  let returned := fst (fst a) in
  snd a !! returned = Some {| Point.x := 0%Z; Point.y := 0%Z |}
  /\ (pool (fst s1) = [] ->
        returned = length (snd s1)
        /\ snd a = snd s1 ++ [{| Point.x := 0%Z; Point.y := 0%Z |}])
  /\ (pool (fst s1) <> [] ->
        last (pool (fst s1)) = Some returned /\ snd a = snd s1)
  /\ (forall o : ref, o < length (snd s1) -> snd a !! o = snd s1 !! o)
  /\ (size pool1 < maxSize pool1 ->
        returned = 0 /\ snd s1 !! 0 = Some {| Point.x := 0%Z; Point.y := 0%Z |}).
Proof.
  apply (release_then_acquire_canonical
           {| Point.x := 0%Z; Point.y := 0%Z |}
           (factory (PointPool (num := Z))) (reset PointPool) (Some 1)
           pool1 heap1 0).
  - reflexivity.
  - intros v. reflexivity.
  - apply reachable_new.
  - simpl. lia.
Defined.

(** The same pool after [release] of its one object: it is full. *)
Lemma size_never_exceeds_maxSize_witness :
  let s := step (Release 0) (pool1, heap1) in
  size (fst s) <= maxSize (fst s)
  /\ maxSize (fst s) = 1
  /\ (forall obj, size (fst s) = maxSize (fst s) ->
        release obj (fst s) (snd s) = (fst s, snd s)).
Proof.
  apply (size_never_exceeds_maxSize
           (factory (PointPool (num := Z))) (reset PointPool) (Some 1)).
  apply (reachable_step _ _ _ (Release 0) (pool1, heap1)).
  - apply reachable_new.
  - simpl. lia.
Defined.

(** What the pool does when a caller writes to an object after
    releasing it: the next [acquire] hands the object out as written. *)
Example use_after_release :
  let '(p1, h1) := release 0 pool1 heap1 in
  let h2 := <[0 := {| Point.x := 5%Z; Point.y := 0%Z |}]> h1 in
  let '(returned, _, h3) := acquire p1 h2 in
  returned = 0 /\ h3 !! returned = Some {| Point.x := 5%Z; Point.y := 0%Z |}.
Proof. split; reflexivity. Qed.

End ObjectPoolFacts.

(* ================================================================== *)
(** ** Chart orchestrator *)

Module ChartFacts.
Import CanvasRenderer Chart.
Local Open Scope nat_scope.

Section Facts.
Context {num : Type} {N : Number num}.
Context (behaviour : Renderable -> RenderLayer -> Exec.result unit).
Implicit Types (c : Chart.t num) (tr : list (Draw.event num)).
Implicit Types (calls : list (Renderable * RenderLayer)).

Lemma clearAll_eq (r : CanvasRenderer.t num) :
  CanvasRenderer.clearAll r = (all_dirty r, clears r).
Proof.
  unfold CanvasRenderer.clearAll, all_dirty, clears, on_layer. f_equal.
Qed.

Lemma live_all_dirty (r : CanvasRenderer.t num) : live r -> live (all_dirty r).
Proof.
  unfold live, all_dirty, JsMap.keys. simpl. intros <-.
  rewrite map_map. done.
Qed.

Lemma live_getContext (r : CanvasRenderer.t num) (l : RenderLayer) :
  live r -> CanvasRenderer.getContext l r = Exec.Ok l.
Proof.
  unfold live, JsMap.keys, layerOrder, CanvasRenderer.getContext,
    CanvasRenderer.getLayer.
  destruct (layers r) as [|[k0 l0] [|[k1 l1] [|[k2 l2] [|[k3 l3] [|[k4 l4] [|]]]]]];
    simpl; intros [=]; subst.
  destruct l; reflexivity.
Qed.

(** *** Calls made until one throws *)

Lemma run_calls_app calls calls' :
  run_calls behaviour (calls ++ calls')
  = match run_calls behaviour calls with
    | (made, Exec.Ok _) =>
        (made ++ fst (run_calls behaviour calls'),
         snd (run_calls behaviour calls'))
    | (made, Exec.Throw msg) => (made, Exec.Throw msg)
    end.
Proof.
  induction calls as [|call calls IH]; simpl.
  - by destruct (run_calls behaviour calls').
  - destruct (behaviour (fst call) (snd call)) as [[]|msg]; [|done].
    rewrite IH. destruct (run_calls behaviour calls) as [made [[]|msg]]; done.
Qed.

Lemma run_calls_prefix calls :
  exists n, fst (run_calls behaviour calls) = take n calls.
Proof.
  induction calls as [|call calls [n IH]]; simpl.
  - by exists 0.
  - destruct (behaviour (fst call) (snd call)) as [[]|msg].
    + destruct (run_calls behaviour calls) as [made r]. simpl in *.
      exists (S n). simpl. by rewrite IH.
    + exists 1. simpl. by rewrite take_0.
Qed.

Lemma run_calls_return calls :
  Forall (returns behaviour) calls ->
  run_calls behaviour calls = (calls, Exec.Ok tt).
Proof.
  induction 1 as [|call calls Hc _ IH]; simpl; [done|].
  unfold returns in Hc. by rewrite Hc, IH.
Qed.

Lemma run_calls_throw (before after : list (Renderable * RenderLayer))
    (call : Renderable * RenderLayer) (msg : string) :
  Forall (returns behaviour) before ->
  behaviour (fst call) (snd call) = Exec.Throw msg ->
  run_calls behaviour (before ++ call :: after)
  = (before ++ [call], Exec.Throw msg).
Proof.
  intros Hb Ht. rewrite run_calls_app, (run_calls_return _ Hb). simpl.
  by rewrite Ht.
Qed.

(** *** The two loops of [render()] *)

Lemma for_each_components (l : RenderLayer) (components : list Renderable) c tr :
  Exec.for_each components
    (fun component =>
       match visible component with
       | Some false => Exec.ret tt
       | _ => Exec.bind (Chart.emit [Draw.RenderCall (id component) l])
                (fun _ => Chart.lift (behaviour component l))
       end) (c, tr)
  = let run := run_calls behaviour
                 (map (fun component => (component, l))
                      (filter (fun component => shown component = true)
                              components)) in
    (snd run, (c, tr ++ map drawn (fst run))).
Proof.
  revert tr. induction components as [|x xs IH]; intros tr.
  - simpl. by rewrite app_nil_r.
  - cbn [Exec.for_each]. unfold Exec.bind at 1.
    destruct (shown x) eqn:Hx.
    + rewrite filter_cons_True by done. cbn [map run_calls fst snd].
      assert (match visible x with
              | Some false => Exec.ret tt
              | _ => Exec.bind (Chart.emit [Draw.RenderCall (id x) l])
                       (fun _ => Chart.lift (behaviour x l))
              end (c, tr)
              = (behaviour x l, (c, tr ++ [Draw.RenderCall (id x) l]))) as ->.
      { unfold shown in Hx.
        destruct (visible x) as [[|]|]; try done;
          unfold Exec.bind, Chart.emit, Exec.modify, Chart.lift; simpl;
          by destruct (behaviour x l). }
      destruct (behaviour x l) as [[]|msg]; [|done].
      rewrite IH. cbn zeta.
      destruct (run_calls behaviour _) as [made r]. simpl.
      by rewrite <- app_assoc.
    + rewrite filter_cons_False by (by rewrite Hx).
      assert (visible x = Some false) as ->
        by (unfold shown in Hx; by destruct (visible x) as [[|]|]).
      simpl. apply IH.
Qed.

Lemma for_each_layers (ls : list RenderLayer) c tr :
  live (renderer c) ->
  Exec.for_each ls
    (fun layer =>
       Exec.bind Exec.get (fun s =>
       match JsMap.get layer (renderables (fst s)) with
       | None => Exec.ret tt
       | Some components =>
           Exec.bind (Chart.getContext layer) (fun ctx =>
           Exec.for_each components
             (fun component =>
                match visible component with
                | Some false => Exec.ret tt
                | _ => Exec.bind (Chart.emit [Draw.RenderCall (id component) ctx])
                         (fun _ => Chart.lift (behaviour component ctx))
                end))
       end)) (c, tr)
  = let run := run_calls behaviour (flat_map (calls_of c) ls) in
    (snd run, (c, tr ++ map drawn (fst run))).
Proof.
  intros Hlive. revert tr. induction ls as [|l ls IH]; intros tr.
  - simpl. by rewrite app_nil_r.
  - cbn [Exec.for_each flat_map]. rewrite run_calls_app.
    unfold Exec.bind at 1 2. simpl.
    destruct (JsMap.get l (renderables c)) as [components|] eqn:E; simpl.
    + assert (calls_of c l
              = map (fun component => (component, l))
                    (filter (fun component => shown component = true) components))
        as -> by (unfold calls_of; by rewrite E).
      unfold Exec.bind at 1, Chart.getContext at 1. simpl.
      rewrite (live_getContext _ l Hlive).
      rewrite for_each_components. cbn zeta.
      destruct (run_calls behaviour (map _ (filter _ components)))
        as [made [[]|msg]]; simpl; [|done].
      rewrite IH. simpl. by rewrite map_app, <- app_assoc.
    + assert (calls_of c l = []) as -> by (unfold calls_of; by rewrite E).
      rewrite IH. done.
Qed.

Lemma chart_clearAll_eq c tr :
  Chart.clearAll (c, tr)
  = (Exec.Ok tt, (set_renderer (all_dirty (renderer c)) c, tr ++ clears (renderer c))).
Proof. reflexivity. Qed.

Lemma chart_getContext_eq (l : RenderLayer) c tr :
  live (renderer c) -> Chart.getContext l (c, tr) = (Exec.Ok l, (c, tr)).
Proof.
  intros Hlive. unfold Chart.getContext. simpl. by rewrite live_getContext.
Qed.

(** [render()] with [RenderLayer] bound, from any state of the
    surfaces. *)
Lemma render_bound c tr :
  live (renderer c) ->
  render Scope.Bound behaviour (c, tr)
  = (snd (run_calls behaviour (frame_calls c)),
     (set_renderer (all_dirty (renderer c)) c,
      tr ++ clears (renderer c) ++ background_fill c
         ++ map drawn (fst (run_calls behaviour (frame_calls c))))).
Proof.
  intros Hlive. unfold render.
  unfold Exec.bind at 1. rewrite chart_clearAll_eq.
  unfold Exec.bind at 1. cbn [Chart.lift Scope.member].
  unfold Exec.bind at 1. rewrite chart_getContext_eq by (by apply live_all_dirty).
  unfold Exec.bind at 1 2 3. cbn [Exec.get Chart.emit Exec.modify fst snd].
  unfold Exec.bind at 1. cbn [Chart.lift Scope.members Scope.member].
  rewrite for_each_layers by (by apply live_all_dirty).
  unfold background_fill, frame_calls, layerOrder. cbn [app config set_renderer].
  cbn zeta. f_equal. f_equal. by rewrite <- !app_assoc.
Qed.

(** [render()] with [RenderLayer] unbound: the layers are cleared, and
    the evaluation of [RenderLayer.Background] throws. *)
Lemma render_unbound c tr :
  render Scope.Unbound behaviour (c, tr)
  = (Exec.Throw "ReferenceError: RenderLayer is not defined",
     (set_renderer (all_dirty (renderer c)) c, tr ++ clears (renderer c))).
Proof. reflexivity. Qed.

(** The object that the constructor builds has its five layers, and
    [add] does not touch them. *)
Lemma constructed_live (w h : num) (m : option (Margin.t num))
    (bg : option string) (ratio : num) :
  live (renderer (Chart.constructed w h m bg ratio)).
Proof. reflexivity. Qed.

Lemma chart_new_constructed (w h : num) (m : option (Margin.t num))
    (bg : option string) (ratio : num) :
  Chart.new Scope.Bound w h m bg ratio
  = Exec.Ok (Chart.constructed w h m bg ratio)
  /\ Chart.new Scope.Unbound w h m bg ratio
     = Exec.Throw "ReferenceError: RenderLayer is not defined".
Proof. split; reflexivity. Qed.

Lemma add_renderer (scope : Scope.t) (renderable : Renderable) c :
  renderer (snd (add scope renderable c)) = renderer c.
Proof.
  unfold add, Exec.bind, Exec.modify, push.
  destruct (layer renderable) as [l|], scope; simpl; try done;
    by destruct (JsMap.get _ _).
Qed.

(** C1, amended.  On a chart whose renderer has its five layers,
    [render()] first clears the whole surface of every layer: it
    begins with [clearAll()], one [clearRect] over the whole canvas of
    each layer, which also marks every layer dirty; this is all it
    does to the chart, however it ends.  With [RenderLayer] bound it
    goes on to the background repaint, [fillStyle] set to the
    configured colour and one [fillRect] over the chart's width and
    height, and then calls [render(ctx)] of the renderables layer by
    layer in the fixed order background, grid, data, interaction,
    overlay, in insertion order within a layer, each with the context
    of its layer, skipping the renderables whose [visible] is
    [false].  The calls made are the first ones of that sequence: all
    of them, and [render()] returns, when every call returns; those up
    to and including the first call that throws, whose error leaves
    [render()], otherwise. *)
Theorem render_clears_then_draws (scope : Scope.t) c :
  live (renderer c) ->
  let run := run_render scope behaviour c in
  let cleared := set_renderer (all_dirty (renderer c)) c in
  fst (snd run) = cleared
  /\ (exists rest, snd (snd run) = clears (renderer c) ++ rest)
  /\ (scope = Scope.Bound ->
      (exists n,
          snd (snd run)
          = clears (renderer c) ++ background_fill c
            ++ map drawn (take n (frame_calls c)))
      /\ (Forall (returns behaviour) (frame_calls c) ->
          run = (Exec.Ok tt,
                 (cleared,
                  clears (renderer c) ++ background_fill c
                  ++ map drawn (frame_calls c))))
      /\ (forall before call after msg,
            frame_calls c = before ++ call :: after ->
            Forall (returns behaviour) before ->
            behaviour (fst call) (snd call) = Exec.Throw msg ->
            run = (Exec.Throw msg,
                   (cleared,
                    clears (renderer c) ++ background_fill c
                    ++ map drawn (before ++ [call]))))).
Proof.
  intros Hlive run cleared. subst run cleared. unfold run_render.
  destruct scope.
  - rewrite render_unbound. simpl. split; [done|]. split; [|done].
    exists []. by rewrite app_nil_r.
  - rewrite (render_bound c [] Hlive). simpl. split; [done|]. split; [eauto|].
    intros _. split; [|split].
    + destruct (run_calls_prefix (frame_calls c)) as [n ->]. by exists n.
    + intros Hall. by rewrite (run_calls_return _ Hall).
    + intros before call after msg -> Hb Ht.
      by rewrite (run_calls_throw before after call msg Hb Ht).
Qed.

End Facts.

Lemma chart0_live : live (renderer chart0).
Proof. reflexivity. Qed.

(** [chart0] is the chart that the constructor and four calls of
    [add] build. *)
Example chart0_built :
  exists c1 c2 c3,
    add Scope.Bound {| id := 0; layer := None; visible := None |}
      (constructed 800 600 None None 1)%Z = (Exec.Ok tt, c1)
    /\ add Scope.Bound {| id := 1; layer := Some Grid; visible := Some false |} c1
       = (Exec.Ok tt, c2)
    /\ add Scope.Bound {| id := 2; layer := Some Background; visible := Some true |} c2
       = (Exec.Ok tt, c3)
    /\ add Scope.Bound {| id := 3; layer := None; visible := Some true |} c3
       = (Exec.Ok tt, chart0).
Proof. do 3 eexists. repeat split; reflexivity. Qed.

(** C1, as stated, fails, whether [RenderLayer] is bound or not: the
    first thing [render()] does to the surfaces of [chart0] is to
    clear all five of them, the data layer among them. *)
Lemma render_clears_every_layer :
  ~ render_clears_no_surface Scope.Unbound quiet chart0
  /\ ~ render_clears_no_surface Scope.Bound quiet chart0.
Proof.
  split; intros H;
    specialize (H (Draw.OnContext Data (Draw.clearRect 0 0 800 600))%Z);
    (assert (Draw.is_clear (Draw.OnContext Data (Draw.clearRect 0 0 800 600))%Z = false)
      as Hf; [|discriminate Hf]);
    apply H; apply list_elem_of_lookup; exists 2; reflexivity.
Qed.

(** The theorem at [chart0], with [RenderLayer] bound and renderables
    that return: the whole frame. *)
Lemma render_clears_then_draws_witness :
  run_render Scope.Bound quiet chart0
  = (Exec.Ok tt,
     (set_renderer (all_dirty (renderer chart0)) chart0,
      [Draw.OnContext Background (Draw.clearRect 0 0 800 600);
       Draw.OnContext Grid (Draw.clearRect 0 0 800 600);
       Draw.OnContext Data (Draw.clearRect 0 0 800 600);
       Draw.OnContext Interaction (Draw.clearRect 0 0 800 600);
       Draw.OnContext Overlay (Draw.clearRect 0 0 800 600);
       Draw.OnContext Background (Draw.set_fillStyle "#ffffff");
       Draw.OnContext Background (Draw.fillRect 0 0 800 600);
       Draw.RenderCall 2 Background;
       Draw.RenderCall 0 Data;
       Draw.RenderCall 3 Data]%Z)).
Proof.
  destruct (render_clears_then_draws quiet Scope.Bound chart0) as (_ & _ & H).
  - reflexivity.
  - destruct (H eq_refl) as (_ & Hall & _). apply Hall.
    repeat constructor.
Defined.

(** The same frame when the renderable 0 throws: the renderable 3,
    which comes after it on the data layer, is not drawn, and the
    error leaves [render()]. *)
Example render_stops_at_throw :
  run_render Scope.Bound faulty chart0
  = (Exec.Throw "render failed",
     (set_renderer (all_dirty (renderer chart0)) chart0,
      [Draw.OnContext Background (Draw.clearRect 0 0 800 600);
       Draw.OnContext Grid (Draw.clearRect 0 0 800 600);
       Draw.OnContext Data (Draw.clearRect 0 0 800 600);
       Draw.OnContext Interaction (Draw.clearRect 0 0 800 600);
       Draw.OnContext Overlay (Draw.clearRect 0 0 800 600);
       Draw.OnContext Background (Draw.set_fillStyle "#ffffff");
       Draw.OnContext Background (Draw.fillRect 0 0 800 600);
       Draw.RenderCall 2 Background;
       Draw.RenderCall 0 Data]%Z)).
Proof. reflexivity. Qed.

(** The same call with [RenderLayer] unbound: the five layers are
    cleared, and the ReferenceError of the background repaint leaves
    [render()]. *)
Example render_without_RenderLayer :
  run_render Scope.Unbound quiet chart0
  = (Exec.Throw "ReferenceError: RenderLayer is not defined",
     (set_renderer (all_dirty (renderer chart0)) chart0,
      [Draw.OnContext Background (Draw.clearRect 0 0 800 600);
       Draw.OnContext Grid (Draw.clearRect 0 0 800 600);
       Draw.OnContext Data (Draw.clearRect 0 0 800 600);
       Draw.OnContext Interaction (Draw.clearRect 0 0 800 600);
       Draw.OnContext Overlay (Draw.clearRect 0 0 800 600)]%Z)).
Proof. reflexivity. Qed.

End ChartFacts.
(* ================================================================== *)
(** ** Frame scheduling *)

Module SchedulerFacts.
Import CanvasRenderer.
Local Open Scope nat_scope.

Section Facts.
Context {num : Type} {N : Number num}.
Implicit Types (w : world num) (c : Callback).

Lemma scheduleRender_tracked c w :
  tracked w ->
  animationFrameId (renderer (scheduleRender c w))
    = Some (S (Window.identifier (window w)))
  /\ Window.frame_callbacks (window (scheduleRender c w))
    = [(S (Window.identifier (window w)), c)]
  /\ executed (scheduleRender c w) = executed w.
Proof.
  unfold tracked, scheduleRender.
  destruct (animationFrameId (renderer w)) as [handle|]; simpl.
  - intros [c0 E]. unfold Window.cancelAnimationFrame, Window.remove.
    rewrite E, filter_cons_False by (simpl; intros H; by apply H).
    done.
  - intros E. rewrite E. done.
Qed.

Lemma schedule_all_tracked cs c w :
  tracked w ->
  exists handle,
    animationFrameId (renderer (schedule_all (cs ++ [c]) w)) = Some handle
    /\ Window.frame_callbacks (window (schedule_all (cs ++ [c]) w)) = [(handle, c)]
    /\ executed (schedule_all (cs ++ [c]) w) = executed w.
Proof.
  revert w. induction cs as [|c' cs IH]; intros w Hw; simpl.
  - destruct (scheduleRender_tracked c w Hw) as (H1 & H2 & H3). eauto.
  - destruct (scheduleRender_tracked c' w Hw) as (H1 & H2 & H3).
    destruct (IH (scheduleRender c' w)) as (handle & ? & ? & Hex).
    { unfold tracked. rewrite H1. eauto. }
    exists handle. repeat split; congruence.
Qed.

Lemma schedule_all_executed cs w :
  executed (schedule_all cs w) = executed w.
Proof.
  revert w. induction cs as [|c cs IH]; intros w; simpl; [done|].
  rewrite IH. unfold scheduleRender.
  by destruct (Window.requestAnimationFrame _ _).
Qed.

(** A frame that runs a callback which does not call [scheduleRender]
    leaves the handle in step with the window: nothing is pending and
    the handle is [null]. *)
Lemma animation_frame_tracked w (handle l : nat) :
  animationFrameId (renderer w) = Some handle ->
  Window.frame_callbacks (window w) = [(handle, callback l [])] ->
  tracked (animation_frame w)
  /\ animationFrameId (renderer (animation_frame w)) = None
  /\ executed (animation_frame w) = executed w ++ [l].
Proof.
  intros Hid Hcb. unfold animation_frame, tracked. rewrite Hcb. simpl.
  unfold Window.lookup. rewrite Hcb. simpl.
  rewrite bool_decide_true by done. simpl.
  rewrite Hcb, filter_cons_False by (simpl; intros H; by apply H).
  done.
Qed.

(** Calls made while the renderer's handle is in step with the window:
    however many, the next frame runs the callback of the last one and
    no other. *)
Lemma scheduleRender_coalesces cs c w :
  tracked w ->
  executed (animation_frame (schedule_all (cs ++ [c]) w))
  = executed w ++ [label c].
Proof.
  intros Hw.
  destruct (schedule_all_tracked cs c w Hw) as (handle & Hid & Hcb & Hex).
  unfold animation_frame. rewrite Hcb. simpl.
  unfold Window.lookup. rewrite Hcb. simpl.
  rewrite bool_decide_true by done. simpl.
  destruct c as [l rs]. simpl.
  match goal with
  | |- executed (fold_left _ rs ?x) = _ =>
      change (executed (schedule_all rs x) = executed w ++ [l])
  end.
  rewrite schedule_all_executed. simpl. by rewrite Hex.
Qed.

End Facts.

(** Three calls in a row on a new renderer: one execution, of the
    third callback. *)
Example three_calls_one_execution :
  executed
    (animation_frame
       (scheduleRender (callback 3 [])
          (scheduleRender (callback 2 [])
             (scheduleRender (callback 1 []) world0))))
  = [3].
Proof. reflexivity. Qed.

(** C3 at the failing input.  [cbA] runs in the first frame and calls
    [scheduleRender(cbB)]; the closure that ran [cbA] then sets
    [animationFrameId] to [null], although the request for [cbB] is
    pending.  A later [scheduleRender(cbC)] therefore cancels nothing,
    and the second frame runs both [cbB] and [cbC].  [cancelRender]
    does not cancel the request for [cbB] either. *)
Lemma scheduleRender_loses_pending_request :
  let w1 := animation_frame (scheduleRender cbA world0) in
  let w2 := animation_frame (scheduleRender cbC w1) in
  executed w1 = [1]
  /\ animationFrameId (renderer w1) = None
  /\ Window.frame_callbacks (window w1) = [(2, cbB)]
  /\ executed w2 = [1; 2; 3]
  /\ executed (animation_frame (cancelRender w1)) = [1; 2].
Proof. repeat split; reflexivity. Qed.

End SchedulerFacts.

(* ================================================================== *)
(** ** Event normalizer *)

Module EventManagerFacts.
Import EventManager.
Local Open Scope nat_scope.

Section Facts.
Context {num : Type} {N : Number num}.
Context (behaviour : EventHandler -> NormalizedEvent num -> Exec.result unit).

(** The calls of a dispatch go to handlers of the list, in the list's
    order, each with the event that was dispatched. *)
Lemma dispatch_calls (hs : list EventHandler) (e : NormalizedEvent num) :
  exists n, fst (dispatch behaviour hs e) = map (fun h => (h, e)) (take n hs).
Proof.
  induction hs as [|h hs [n IH]]; simpl.
  - by exists 0.
  - destruct (behaviour h e).
    + destruct (dispatch behaviour hs e) as [calls r]. simpl in *.
      exists (S n). simpl. by rewrite IH.
    + exists 1. simpl. by destruct hs.
Qed.

(** When no handler throws, every handler of the list is called. *)
Lemma dispatch_all (hs : list EventHandler) (e : NormalizedEvent num) :
  (forall h, h ∈ hs -> behaviour h e = Exec.Ok tt) ->
  dispatch behaviour hs e = (map (fun h => (h, e)) hs, Exec.Ok tt).
Proof.
  induction hs as [|h hs IH]; simpl; intros Hok; [done|].
  rewrite (Hok h) by left.
  rewrite IH; [done|]. intros h' Hh'. apply Hok. by right.
Qed.

(** C7: a touch event with no touch point is dropped: no handler is
    called and nothing is thrown, whether the event reaches
    [handleEvent] directly or through the canvas listener.  A touch
    event with at least one touch point is dispatched as one
    [NormalizedEvent] whose point is the first touch's client position
    minus the origin of the canvas rectangle, whatever the other
    touches are: the handlers registered for the event type are called
    with it in registration order, up to the first one that throws,
    and all of them when none throws. *)
Theorem touch_event_uses_first_touch (ty : EventType) (em : EventManager.t num) :
  handleEvent behaviour ty (TouchEvent []) em = ([], Exec.Ok tt)
  /\ deliver behaviour ty (TouchEvent []) em = ([], Exec.Ok tt)
  /\ (forall (touch : Touch num) (rest : list (Touch num)),
        let e := {| type := ty;
                    point :=
                      {| Point.x := num_sub (touch_clientX touch) (rect_left (canvas em));
                         Point.y := num_sub (touch_clientY touch) (rect_top (canvas em)) |};
                    originalEvent := TouchEvent (touch :: rest) |} in
        handleEvent behaviour ty (TouchEvent (touch :: rest)) em
          = dispatch behaviour (registered ty em) e
        /\ (exists n, fst (handleEvent behaviour ty (TouchEvent (touch :: rest)) em)
                      = map (fun h => (h, e)) (take n (registered ty em)))
        /\ ((forall h, h ∈ registered ty em -> behaviour h e = Exec.Ok tt) ->
            handleEvent behaviour ty (TouchEvent (touch :: rest)) em
              = (map (fun h => (h, e)) (registered ty em), Exec.Ok tt))).
Proof.
  split; [reflexivity|]. split.
  { unfold deliver. by destruct (decide _). }
  intros touch rest e.
  assert (handleEvent behaviour ty (TouchEvent (touch :: rest)) em
          = dispatch behaviour (registered ty em) e) as Heq.
  { unfold handleEvent, registered. simpl.
    by destruct (JsMap.get ty (handlers em)). }
  split; [exact Heq|]. rewrite Heq. split.
  - apply dispatch_calls.
  - apply dispatch_all.
Qed.

End Facts.

(** Two fingers on the canvas of [em0]: both handlers get the point of
    the first finger.  The last finger lifted: nobody is called. *)
Example touch_examples :
  let two := TouchEvent [{| touch_clientX := 110; touch_clientY := 220 |};
                         {| touch_clientX := 5; touch_clientY := 5 |}]%Z in
  let e := {| type := touchmove;
              point := {| Point.x := 100; Point.y := 200 |};
              originalEvent := two |}%Z in
  deliver quiet touchmove two em0 = ([(7, e); (8, e)], Exec.Ok tt)
  /\ deliver quiet touchend (TouchEvent []) em0 = ([], Exec.Ok tt)
  /\ deliver quiet touchstart two em0 = ([], Exec.Ok tt).
Proof. repeat split; reflexivity. Qed.

End EventManagerFacts.

(* ================================================================== *)
(** ** Domain computation *)

Module ScaleManagerFacts.
Import ScaleManager.
Local Open Scope nat_scope.

Section Distinct.
Context {V : Type} `{EqDecision V}.

Lemma Set_fold (values acc : list V) :
  fold_left Set_add values acc
  = acc ++ filter (fun v => v ∉ acc) (first_seen values).
Proof.
  revert acc. induction values as [|v vs IH]; intros acc; simpl.
  - by rewrite app_nil_r.
  - rewrite IH. unfold Set_add. destruct (decide (v ∈ acc)) as [Hin|Hnin].
    + rewrite filter_cons_False by (intros H'; by apply H').
      f_equal. rewrite list_filter_filter. apply list_filter_iff.
      intros x. simpl. split; [|by intros [? ?]]. intros Hx. split; [done|]. by intros ->.
    + rewrite filter_cons_True by done. rewrite <- app_assoc. simpl. do 2 f_equal.
      rewrite list_filter_filter. apply list_filter_iff.
      intros x. simpl. rewrite elem_of_app, list_elem_of_singleton. tauto.
Qed.

Lemma Array_from_Set_first_seen (values : list V) :
  Array_from_Set values = first_seen values.
Proof.
  unfold Array_from_Set. rewrite Set_fold. simpl.
  induction (first_seen values) as [|x l IH]; [done|].
  rewrite filter_cons_True by apply not_elem_of_nil. by rewrite IH.
Qed.

Lemma elem_of_first_seen (values : list V) (v : V) :
  v ∈ first_seen values <-> v ∈ values.
Proof.
  induction values as [|a vs IH]; simpl; [done|].
  rewrite !elem_of_cons, list_elem_of_filter, IH.
  destruct (decide (v = a)); tauto.
Qed.

Lemma NoDup_first_seen (values : list V) : NoDup (first_seen values).
Proof.
  induction values as [|a vs IH]; simpl; constructor.
  - rewrite list_elem_of_filter. tauto.
  - by apply NoDup_filter.
Qed.
End Distinct.

Section Extent.
Context {V : Type} {O : Comparable V}.
Implicit Types (values : list V) (v lo hi : V).

Lemma extent_step_None v :
  extent_step None v = if comparable v then Some (v, v) else None.
Proof.
  unfold extent_step, comparable. by destruct (js_nullish v), (js_geb v v).
Qed.

(** Once a first value is found, the two components are values of the
    list. *)
Lemma fold_Some values lo hi :
  exists lo' hi',
    fold_left extent_step values (Some (lo, hi)) = Some (lo', hi')
    /\ lo' ∈ lo :: values /\ hi' ∈ hi :: values.
Proof.
  revert lo hi. induction values as [|v values IH]; intros lo hi; simpl.
  - exists lo, hi. repeat split; left.
  - unfold extent_step at 2. destruct (js_nullish v).
    + destruct (IH lo hi) as (lo' & hi' & -> & Hlo & Hhi).
      exists lo', hi'. split; [done|].
      rewrite !elem_of_cons in *. tauto.
    + destruct (IH (if js_ltb v lo then v else lo) (if js_ltb hi v then v else hi))
        as (lo' & hi' & -> & Hlo & Hhi).
      exists lo', hi'. split; [done|].
      rewrite !elem_of_cons in *.
      destruct (js_ltb v lo), (js_ltb hi v); tauto.
Qed.

Lemma fold_None values :
  fold_left extent_step values None = None
  <-> Forall (fun v => comparable v = false) values.
Proof.
  induction values as [|v values IH]; simpl; [by split|].
  rewrite extent_step_None. destruct (comparable v) eqn:E.
  - destruct (fold_Some values v v) as (lo & hi & -> & _). split; [done|].
    intros H. apply Forall_cons in H as [H _]. congruence.
  - rewrite IH. split; [by constructor|]. intros H.
    by apply Forall_cons in H as [_ H].
Qed.

Lemma fold_found values :
  Exists (fun v => comparable v = true) values ->
  exists lo hi,
    fold_left extent_step values None = Some (lo, hi)
    /\ lo ∈ values /\ hi ∈ values.
Proof.
  induction values as [|v values IH]; intros Hex; [by apply Exists_nil in Hex|].
  simpl. rewrite extent_step_None. destruct (comparable v) eqn:E.
  - destruct (fold_Some values v v) as (lo & hi & -> & Hlo & Hhi). eauto.
  - apply Exists_cons in Hex as [Hv|Hex]; [congruence|].
    destruct (IH Hex) as (lo & hi & -> & Hlo & Hhi).
    exists lo, hi. repeat split; try done; by right.
Qed.

(** Where [<] orders the values, the two components bound the
    comparable values that have been seen. *)
Lemma fold_bounds (seen : V -> Prop) values lo hi lo' hi' :
  ordered ->
  comparable lo = true -> comparable hi = true ->
  (forall x, seen x -> comparable x = true ->
     js_ltb x lo = false /\ js_ltb hi x = false) ->
  fold_left extent_step values (Some (lo, hi)) = Some (lo', hi') ->
  comparable lo' = true /\ comparable hi' = true
  /\ (forall x, seen x \/ x ∈ values -> comparable x = true ->
        js_ltb x lo' = false /\ js_ltb hi' x = false).
Proof.
  intros (Hirr & Htrans & Hself). revert seen lo hi.
  induction values as [|v values IH]; intros seen lo hi Hlo Hhi Hseen; simpl.
  - intros [= <- <-]. split; [done|]. split; [done|].
    intros x [Hx|Hx] Hcx; [by apply Hseen|by apply elem_of_nil in Hx].
  - unfold extent_step at 2. destruct (js_nullish v) eqn:Hnull.
    + intros Hfold.
      destruct (IH seen lo hi Hlo Hhi Hseen Hfold) as (Hlo' & Hhi' & Hb).
      split; [done|]. split; [done|].
      intros x [Hx|Hx] Hcx; [apply Hb; [by left|done]|].
      apply elem_of_cons in Hx as [->|Hx]; [|apply Hb; [by right|done]].
      unfold comparable in Hcx. by rewrite Hnull in Hcx.
    + intros Hfold.
      assert (forall w, js_ltb v w = true \/ js_ltb w v = true ->
                comparable v = true) as Hv.
      { intros w Hw. unfold comparable. rewrite Hnull. simpl.
        destruct Hw as [Hw|Hw]; by destruct (Hself _ _ Hw). }
      apply (IH (fun x => seen x \/ x = v)) in Hfold.
      * destruct Hfold as (Hlo' & Hhi' & Hb).
        split; [done|]. split; [done|].
        intros x Hx Hcx. apply Hb; [|done].
        rewrite elem_of_cons in Hx. tauto.
      * destruct (js_ltb v lo) eqn:E; [|done]. apply (Hv lo). by left.
      * destruct (js_ltb hi v) eqn:E; [|done]. apply (Hv hi). by right.
      * intros x [Hx| ->] Hcx.
        -- destruct (Hseen x Hx Hcx) as [H1 H2]. split.
           ++ destruct (js_ltb v lo) eqn:E; [|done].
              destruct (js_ltb x v) eqn:E'; [|done].
              by rewrite (Htrans _ _ _ E' E) in H1.
           ++ destruct (js_ltb hi v) eqn:E; [|done].
              destruct (js_ltb v x) eqn:E'; [|done].
              by rewrite (Htrans _ _ _ E E') in H2.
        -- split.
           ++ by destruct (js_ltb v lo) eqn:E.
           ++ by destruct (js_ltb hi v) eqn:E.
Qed.

(** What [extent] returns. *)
Lemma extent_spec values :
  (Forall (fun v => comparable v = false) values /\ extent values = (None, None))
  \/ (exists lo hi,
         Exists (fun v => comparable v = true) values
         /\ extent values = (Some lo, Some hi)
         /\ lo ∈ values /\ hi ∈ values
         /\ (ordered ->
             comparable lo = true /\ comparable hi = true
             /\ (forall x, x ∈ values -> comparable x = true ->
                   js_ltb x lo = false /\ js_ltb hi x = false))).
Proof.
  unfold extent.
  destruct (decide (Forall (fun v => comparable v = false) values)) as [Hall|Hex].
  - left. split; [done|]. by rewrite (proj2 (fold_None values) Hall).
  - right. apply not_Forall_Exists in Hex; [|apply _].
    assert (Exists (fun v => comparable v = true) values) as Hex'.
    { eapply Exists_impl; [exact Hex|]. simpl. intros v.
      by destruct (comparable v). }
    destruct (fold_found values Hex') as (lo & hi & Hfold & Hlo & Hhi).
    exists lo, hi. rewrite Hfold.
    split; [done|]. split; [done|]. split; [done|]. split; [done|].
    intros Hord. clear Hex Hex' Hlo Hhi. revert Hfold.
    induction values as [|v values IH]; simpl; [done|].
    rewrite extent_step_None. destruct (comparable v) eqn:E; intros Hfold.
    + destruct (fold_bounds (fun x => x = v) values v v lo hi Hord E E)
        as (H1 & H2 & H3); [|done|].
      { destruct Hord as (Hirr & _). by intros x ->. }
      split; [done|]. split; [done|].
      intros x Hx. apply H3. rewrite elem_of_cons in Hx. tauto.
    + destruct (IH Hfold) as (H1 & H2 & H3).
      split; [done|]. split; [done|].
      intros x Hx Hcx. apply elem_of_cons in Hx as [->|Hx]; [congruence|].
      by apply H3.
Qed.

End Extent.

Lemma Z_ordered : ordered (V := Z).
Proof.
  unfold ordered. simpl. split; [|split].
  - intros a. apply Z.ltb_irrefl.
  - intros a b c. rewrite !Z.ltb_lt. lia.
  - intros a b _. split; apply Z.geb_le; lia.
Qed.

Lemma float_ordered : ordered (V := float).
Proof.
  unfold ordered. simpl. split; [|split].
  - apply JsFacts.ltb_irrefl.
  - apply JsFacts.ltb_trans.
  - intros a b H. destruct (JsFacts.ltb_not_nan a b H) as [Ha Hb].
    by rewrite !JsFacts.leb_self, Ha, Hb.
Qed.

(** Results that may be missing are ordered as the results that are
    there. *)
Lemma option_ordered {V : Type} {O : Comparable V} :
  ordered (V := V) -> ordered (V := option V).
Proof.
  intros (Hirr & Htrans & Hself). unfold ordered. simpl. split; [|split].
  - intros [a|]; [apply Hirr|done].
  - intros [a|] [b|] [c|]; try done. apply Htrans.
  - intros [a|] [b|]; try done. apply Hself.
Qed.

Lemma continuous_not_categorical (scaleType : ScaleType) :
  scaleType ∈ [linear; log; pow; sqrt; time] -> categorical scaleType = false.
Proof.
  intros H. repeat (apply elem_of_cons in H as [->|H]; [reflexivity|]).
  by apply elem_of_nil in H.
Qed.

Lemma categorical_types_categorical (scaleType : ScaleType) :
  scaleType ∈ [band; point; ordinal] -> categorical scaleType = true.
Proof.
  intros H. repeat (apply elem_of_cons in H as [->|H]; [reflexivity|]).
  by apply elem_of_nil in H.
Qed.

Section Continuous.
Context {T V : Type} `{EqDecision V} {O : Comparable V}.

(** What [computeDomain] does for a continuous scale type. *)
Lemma computeDomain_continuous (data : list T) (accessor : T -> nat -> V)
    (scaleType : ScaleType) :
  scaleType ∈ [linear; log; pow; sqrt; time] ->
  (Forall (fun v => comparable v = false) (results data accessor)
   /\ computeDomain data accessor scaleType
      = Exec.Throw "Cannot compute domain: no valid data")
  \/ (exists lo hi,
         Exists (fun v => comparable v = true) (results data accessor)
         /\ computeDomain data accessor scaleType = Exec.Ok [lo; hi]
         /\ lo ∈ results data accessor /\ hi ∈ results data accessor
         /\ (ordered (V := V) ->
             comparable lo = true /\ comparable hi = true
             /\ (forall x, x ∈ results data accessor -> comparable x = true ->
                   js_ltb x lo = false /\ js_ltb hi x = false))).
Proof.
  intros Hc. unfold computeDomain. rewrite (continuous_not_categorical _ Hc).
  fold (results data accessor).
  destruct (extent_spec (results data accessor))
    as [[Hall ->]|(lo & hi & Hex & -> & Hlo & Hhi & Hb)].
  - by left.
  - right. exists lo, hi. done.
Qed.

End Continuous.

Section Numbers.
#[local] Existing Instance float_eq_dec.

(** C4 amended.  For every accessor, [computeDomain] with a continuous
    scale type (linear, log, pow, sqrt, time) throws (the error the
    specification names EmptyDomainError is [Error("Cannot compute
    domain: no valid data")]) when no accessor result is comparable,
    that is on an empty dataset, and also on a dataset whose results
    are all NaN, [null] or [undefined]; when some result is
    comparable it returns a two-element list of accessor results,
    which, where [<] orders the values, are comparable and are the
    least and the greatest of the comparable results.  For numbers
    (binary64) that is: it throws when every result is NaN, and
    otherwise returns the least and the greatest of the results that
    are not NaN; for integers: it returns the least and the greatest
    result of every non-empty dataset.  With a categorical scale type
    (band, point, ordinal) it returns the distinct accessor results in
    first-seen order, and the empty list on the empty dataset. *)
Theorem computeDomain_empty_extent_distinct (T : Type) :
  (forall (V : Type) (Heq : EqDecision V) (O : Comparable V)
          (data : list T) (accessor : T -> nat -> V) (scaleType : ScaleType),
      scaleType ∈ [linear; log; pow; sqrt; time] ->
      (Forall (fun v => comparable v = false) (results data accessor) ->
       computeDomain data accessor scaleType
       = Exec.Throw "Cannot compute domain: no valid data")
      /\ computeDomain [] accessor scaleType
         = Exec.Throw "Cannot compute domain: no valid data"
      /\ (Exists (fun v => comparable v = true) (results data accessor) ->
          exists lo hi : V,
            computeDomain data accessor scaleType = Exec.Ok [lo; hi]
            /\ lo ∈ results data accessor /\ hi ∈ results data accessor
            /\ (ordered (V := V) ->
                comparable lo = true /\ comparable hi = true
                /\ (forall v, v ∈ results data accessor -> comparable v = true ->
                      js_ltb v lo = false /\ js_ltb hi v = false))))
  /\ (forall (data : list T) (accessor : T -> nat -> float) (scaleType : ScaleType),
      scaleType ∈ [linear; log; pow; sqrt; time] ->
      (Forall (fun v => PrimFloat.is_nan v = true) (results data accessor) ->
       computeDomain data accessor scaleType
       = Exec.Throw "Cannot compute domain: no valid data")
      /\ (Exists (fun v => PrimFloat.is_nan v = false) (results data accessor) ->
          exists lo hi : float,
            computeDomain data accessor scaleType = Exec.Ok [lo; hi]
            /\ lo ∈ results data accessor /\ hi ∈ results data accessor
            /\ PrimFloat.is_nan lo = false /\ PrimFloat.is_nan hi = false
            /\ (forall v, v ∈ results data accessor -> PrimFloat.is_nan v = false ->
                  PrimFloat.leb lo v = true /\ PrimFloat.leb v hi = true)))
  /\ (forall (data : list T) (accessor : T -> nat -> Z) (scaleType : ScaleType),
      scaleType ∈ [linear; log; pow; sqrt; time] -> data <> [] ->
      exists lo hi : Z,
        computeDomain data accessor scaleType = Exec.Ok [lo; hi]
        /\ lo ∈ results data accessor /\ hi ∈ results data accessor
        /\ (forall v, v ∈ results data accessor -> (lo <= v <= hi)%Z))
  /\ (forall (V : Type) (Heq : EqDecision V) (O : Comparable V)
          (data : list T) (accessor : T -> nat -> V) (scaleType : ScaleType),
      scaleType ∈ [band; point; ordinal] ->
      computeDomain data accessor scaleType
      = Exec.Ok (first_seen (results data accessor))
      /\ NoDup (first_seen (results data accessor))
      /\ (forall v, v ∈ first_seen (results data accessor)
                    <-> v ∈ results data accessor)
      /\ computeDomain [] accessor scaleType = Exec.Ok []).
Proof.
  split; [|split; [|split]].
  - intros V Heq O data accessor scaleType Hc. split; [|split].
    + intros Hall.
      destruct (computeDomain_continuous data accessor scaleType Hc)
        as [[_ ->]|(lo & hi & Hex & _)]; [done|].
      apply Exists_exists in Hex as (v & Hv & Hcv).
      rewrite Forall_forall in Hall. specialize (Hall v Hv). congruence.
    + by destruct (computeDomain_continuous [] accessor scaleType Hc)
        as [[_ ->]|(lo & hi & Hex & _)]; [|apply Exists_nil in Hex].
    + intros Hex.
      destruct (computeDomain_continuous data accessor scaleType Hc)
        as [[Hall _]|(lo & hi & _ & -> & Hlo & Hhi & Hb)].
      * apply Exists_exists in Hex as (v & Hv & Hcv).
        rewrite Forall_forall in Hall. specialize (Hall v Hv). congruence.
      * exists lo, hi. done.
  - intros data accessor scaleType Hc.
    assert (forall v : float, comparable v = negb (PrimFloat.is_nan v)) as Hcmp
      by (intros v; unfold comparable; simpl; apply JsFacts.leb_self).
    split.
    + intros Hall.
      destruct (computeDomain_continuous data accessor scaleType Hc)
        as [[_ ->]|(lo & hi & Hex & _)]; [done|].
      apply Exists_exists in Hex as (v & Hv & Hcv).
      rewrite Forall_forall in Hall. specialize (Hall v Hv).
      rewrite Hcmp, Hall in Hcv. done.
    + intros Hex.
      destruct (computeDomain_continuous data accessor scaleType Hc)
        as [[Hall _]|(lo & hi & _ & -> & Hlo & Hhi & Hb)].
      * apply Exists_exists in Hex as (v & Hv & Hcv).
        rewrite Forall_forall in Hall. specialize (Hall v Hv).
        rewrite Hcmp, Hcv in Hall. done.
      * destruct (Hb float_ordered) as (Hclo & Hchi & Hbounds).
        rewrite Hcmp in Hclo, Hchi.
        apply negb_true_iff in Hclo, Hchi.
        exists lo, hi. repeat split; try done;
          destruct (Hbounds v) as [H1 H2]; try done;
          try (rewrite Hcmp; by apply negb_true_iff);
          by apply JsFacts.not_ltb_leb.
  - intros data accessor scaleType Hc Hne.
    destruct (computeDomain_continuous data accessor scaleType Hc)
      as [[Hall _]|(lo & hi & _ & -> & Hlo & Hhi & Hb)].
    + destruct data as [|d data]; [done|]. apply Forall_cons in Hall as [Hd _].
      unfold comparable in Hd. simpl in Hd.
      rewrite Z.geb_leb in Hd. apply Z.leb_gt in Hd. lia.
    + destruct (Hb Z_ordered) as (_ & _ & Hbounds).
      exists lo, hi. repeat split; try done;
        destruct (Hbounds v) as [H1 H2]; try done;
        try (unfold comparable; simpl; apply Z.geb_le; lia);
        simpl in *; apply Z.ltb_ge in H1, H2; lia.
  - intros V Heq O data accessor scaleType Hc. unfold computeDomain.
    rewrite (categorical_types_categorical _ Hc).
    fold (results data accessor). rewrite Array_from_Set_first_seen.
    repeat split; try done.
    + apply NoDup_first_seen.
    + by apply elem_of_first_seen.
    + by apply elem_of_first_seen.
Qed.

(** C4, as stated, fails: on a non-empty dataset whose accessor
    results are all NaN, [computeDomain] with a continuous scale type
    does not return an extent but throws. *)
Lemma computeDomain_fails_without_numbers :
  ~ fails_only_on_empty_data [1; 2]%Z (fun _ _ => PrimFloat.nan) linear.
Proof.
  intros (lo & hi & H). vm_compute in H. discriminate H.
Qed.

End Numbers.

Example computeDomain_examples :
  computeDomain [3; 1; 2]%Z (fun d _ => d) linear = Exec.Ok [1; 3]%Z
  /\ computeDomain [3; 1; 3; 2; 1]%Z (fun d _ => d) band = Exec.Ok [3; 1; 2]%Z
  /\ computeDomain [5; 5; 5]%Z (fun d i => (d + Z.of_nat i)%Z) time = Exec.Ok [5; 7]%Z
  /\ computeDomain [1; 2; 3]%Z
       (fun d _ => if (d =? 2)%Z then None else Some d) linear
     = Exec.Ok [Some 1; Some 3]%Z
  /\ computeDomain [1; 2]%Z (fun _ _ => @None Z) linear
     = Exec.Throw "Cannot compute domain: no valid data".
Proof. repeat split; reflexivity. Qed.

(** On numbers: NaN results are passed over, wherever they are. *)
Example computeDomain_passes_over_NaN :
  computeDomain (EqDecision0 := float_eq_dec)
    [PrimFloat.nan; 3%float; PrimFloat.nan; 1%float; 2%float] (fun d _ => d) linear
  = Exec.Ok [1%float; 3%float].
Proof. reflexivity. Qed.

End ScaleManagerFacts.
(* ================================================================== *)
(** * Further properties of the code *)

(** ** The plot area *)

Module PlotAreaFacts.
Import CoordinateSystem CoordinateSystemFacts.
Local Open Scope Z_scope.

Lemma ltb_leb (a b : float) :
  PrimFloat.ltb a b = true -> PrimFloat.leb a b = true.
Proof.
  rewrite FloatAxioms.ltb_spec, FloatAxioms.leb_spec. unfold SFltb, SFleb.
  by destruct (SFcompare _ _) as [[]|].
Qed.

(** [Math.max(0, d)] is NaN or at least zero. *)
Lemma float_max_zero_nonneg (d : float) :
  PrimFloat.is_nan (float_max PrimFloat.zero d) = false ->
  PrimFloat.leb PrimFloat.zero (float_max PrimFloat.zero d) = true.
Proof.
  unfold float_max.
  change (PrimFloat.is_nan PrimFloat.zero) with false.
  change (PrimFloat.classify PrimFloat.zero) with PZero.
  destruct (PrimFloat.is_nan d) eqn:Hd; simpl; [by intros H|]. intros _.
  destruct (PrimFloat.ltb PrimFloat.zero d) eqn:E1; [by apply ltb_leb|].
  destruct (PrimFloat.ltb d PrimFloat.zero) eqn:E2; reflexivity.
Qed.

(** X1: [getInnerWidth] and [getInnerHeight] are never negative.  Over
    the integers they are the size less the two margins of that axis
    when that is not negative, and zero when the margins use up more
    than the size.  On binary64 numbers the result is NaN or at least
    zero. *)
Theorem inner_size_never_negative :
  (forall cs : CoordinateSystem.t Z,
      0 <= getInnerWidth cs /\ 0 <= getInnerHeight cs
      /\ (getInnerWidth cs
          = if width cs - Margin.left (margin cs) - Margin.right (margin cs) <? 0
            then 0
            else width cs - Margin.left (margin cs) - Margin.right (margin cs))
      /\ (getInnerHeight cs
          = if height cs - Margin.top (margin cs) - Margin.bottom (margin cs) <? 0
            then 0
            else height cs - Margin.top (margin cs) - Margin.bottom (margin cs)))
  /\ (forall cs : CoordinateSystem.t float,
        (PrimFloat.is_nan (getInnerWidth cs) = false ->
         PrimFloat.leb PrimFloat.zero (getInnerWidth cs) = true)
        /\ (PrimFloat.is_nan (getInnerHeight cs) = false ->
            PrimFloat.leb PrimFloat.zero (getInnerHeight cs) = true)).
Proof.
  split; intros cs.
  - unfold getInnerWidth, getInnerHeight. simpl.
    repeat match goal with |- context [?a <? ?b] => destruct (Z.ltb_spec a b) end; lia.
  - split; apply float_max_zero_nonneg.
Qed.

(** X2: over the integers [clampToPlotArea] projects onto the plot
    area: the clamped point is in the plot area, a point is left where
    it is exactly when it is in the plot area, and no point of the plot
    area is nearer to the given point, in [x] or in [y]. *)
Theorem clampToPlotArea_projects_onto_plot_area
    (cs : CoordinateSystem.t Z) (p : Point.t Z) :
  isInPlotArea cs (clampToPlotArea cs p) = true
  /\ (clampToPlotArea cs p = p <-> isInPlotArea cs p = true)
  /\ (forall q, isInPlotArea cs q = true ->
        Z.abs (Point.x (clampToPlotArea cs p) - Point.x p)
          <= Z.abs (Point.x q - Point.x p)
        /\ Z.abs (Point.y (clampToPlotArea cs p) - Point.y p)
          <= Z.abs (Point.y q - Point.y p)).
Proof.
  split; [apply clampToPlotArea_in_plot|]. split.
  - split; [|apply clampToPlotArea_fixes_plot].
    intros E. rewrite <- E. apply clampToPlotArea_in_plot.
  - intros [qx qy]. destruct p as [px py].
    unfold isInPlotArea, clampToPlotArea, getPlotBounds, getInnerWidth,
      getInnerHeight. simpl.
    rewrite !andb_true_iff, !Z.leb_le. lia.
Qed.

(** X3: over the integers, a screen point is in the plot area exactly
    when its data coordinates lie between zero and the inner width and
    between zero and the inner height, both ends included; and the
    screen point of a data point is in the plot area exactly when the
    data point lies in that range. *)
Theorem isInPlotArea_in_data_coordinates
    (cs : CoordinateSystem.t Z) (p : Point.t Z) :
  (isInPlotArea cs p = true
   <-> 0 <= Point.x (screenToData cs p) <= getInnerWidth cs
       /\ 0 <= Point.y (screenToData cs p) <= getInnerHeight cs)
  /\ (isInPlotArea cs (dataToScreen cs p) = true
      <-> 0 <= Point.x p <= getInnerWidth cs
          /\ 0 <= Point.y p <= getInnerHeight cs).
Proof.
  destruct p as [px py].
  unfold isInPlotArea, screenToData, dataToScreen, getPlotBounds. simpl.
  rewrite !andb_true_iff, !Z.leb_le. lia.
Qed.

(** X4: over the integers, when no margin is negative and the margins
    of each axis fit in the size, the plot bounds and the right and
    bottom margins add up to the full bounds, and every point of the
    plot area lies within the full bounds. *)
Theorem plot_bounds_within_full_bounds (cs : CoordinateSystem.t Z) :
  0 <= Margin.top (margin cs) -> 0 <= Margin.right (margin cs) ->
  0 <= Margin.bottom (margin cs) -> 0 <= Margin.left (margin cs) ->
  Margin.left (margin cs) + Margin.right (margin cs) <= width cs ->
  Margin.top (margin cs) + Margin.bottom (margin cs) <= height cs ->
  let plot := getPlotBounds cs in
  let full := getFullBounds cs in
  Rect.x plot + Rect.width plot + Margin.right (margin cs) = Rect.width full
  /\ Rect.y plot + Rect.height plot + Margin.bottom (margin cs) = Rect.height full
  /\ (forall p, isInPlotArea cs p = true ->
        Rect.x full <= Point.x p <= Rect.x full + Rect.width full
        /\ Rect.y full <= Point.y p <= Rect.y full + Rect.height full).
Proof.
  intros Ht Hr Hb Hl Hw Hh plot full. subst plot full.
  unfold getPlotBounds, getFullBounds, getInnerWidth, getInnerHeight. simpl.
  split; [lia|]. split; [lia|].
  intros [px py].
  unfold isInPlotArea, getPlotBounds, getInnerWidth, getInnerHeight. simpl.
  rewrite !andb_true_iff, !Z.leb_le. lia.
Qed.

(** The theorem at an 800 by 600 surface with the default margins. *)
Lemma plot_bounds_within_full_bounds_witness :
  let cs : CoordinateSystem.t Z := CoordinateSystem.new 800 600 default_margin in
  let plot := getPlotBounds cs in
  let full := getFullBounds cs in
  Rect.x plot + Rect.width plot + Margin.right (margin cs) = Rect.width full
  /\ Rect.y plot + Rect.height plot + Margin.bottom (margin cs) = Rect.height full
  /\ (forall p, isInPlotArea cs p = true ->
        Rect.x full <= Point.x p <= Rect.x full + Rect.width full
        /\ Rect.y full <= Point.y p <= Rect.y full + Rect.height full).
Proof.
  apply (plot_bounds_within_full_bounds
           (CoordinateSystem.new 800 600 default_margin));
    simpl; lia.
Defined.

End PlotAreaFacts.

(* ================================================================== *)
(** ** Runs of [release] and [acquire] *)

Module PoolOrderFacts.
Import ObjectPool ObjectPoolFacts.
Local Open Scope nat_scope.

Section Facts.
Context {T : Type}.
Implicit Types (p : ObjectPool.t T) (h : heap T) (obj : ref) (objs : list ref).

Lemma with_pool_same p : with_pool p (pool p) = p.
Proof. by destruct p. Qed.

(** A run of [release] calls keeps, and resets, the objects that fit. *)
Lemma release_all_eq objs p h :
  release_all objs (p, h)
  = (with_pool p (pool p ++ take (maxSize p - size p) objs),
     fold_left (fun h obj => alter (reset p) obj h)
       (take (maxSize p - size p) objs) h).
Proof.
  revert p h. induction objs as [|obj objs IH]; intros p h.
  - rewrite take_nil, app_nil_r, with_pool_same. done.
  - unfold release_all in *. simpl. unfold release at 2. unfold size.
    destruct (length (pool p) <? maxSize p) eqn:E.
    + apply Nat.ltb_lt in E. rewrite IH. simpl. unfold size. simpl.
      rewrite length_app. simpl.
      replace (maxSize p - length (pool p))
        with (S (maxSize p - (length (pool p) + 1))) by lia.
      simpl. unfold with_pool. simpl. by rewrite <- app_assoc.
    + apply Nat.ltb_ge in E. rewrite IH. unfold size.
      replace (maxSize p - length (pool p)) with 0 by lia.
      by rewrite !take_0.
Qed.

(** [n] calls of [acquire] take the pooled objects from the end of the
    array and then build new ones. *)
Lemma acquire_n_eq (n : nat) p h :
  acquire_n n (p, h)
  = (rev (drop (size p - n) (pool p)) ++ seq (length h) (n - size p),
     (with_pool p (take (size p - n) (pool p)),
      h ++ replicate (n - size p) (factory p))).
Proof.
  revert p h. induction n as [|n IH]; intros p h.
  - simpl. unfold size. rewrite Nat.sub_0_r, drop_all, take_ge by done.
    simpl. by rewrite app_nil_r, with_pool_same.
  - cbn [acquire_n fst snd].
    destruct (acquire_cases p h) as [[E ->]|(l & o & E & ->)].
    + rewrite IH. unfold size. rewrite E. simpl.
      rewrite !Nat.sub_0_r, length_app. simpl.
      rewrite Nat.add_1_r, <- app_assoc. done.
    + rewrite IH. unfold size. rewrite E. simpl. rewrite length_app. simpl.
      replace (length l + 1 - S n) with (length l - n) by lia.
      replace (S n - (length l + 1)) with (n - length l) by lia.
      rewrite drop_app_le, take_app_le by lia.
      by rewrite rev_app_distr.
Qed.

(** X5: a run of [release] calls keeps the first objects, as many as
    the pool has room for, in the order released, and drops the rest.
    Every object that is kept is left in a state that [reset] produced;
    every other object, the dropped ones included, is left as it was;
    no object is created. *)
Theorem release_fills_pool_up_to_capacity objs p h :
  let kept := take (maxSize p - size p) objs in
  let s := release_all objs (p, h) in
  pool (fst s) = pool p ++ kept
  /\ (size p <= maxSize p ->
      size (fst s) = min (maxSize p) (size p + length objs))
  /\ length (snd s) = length h
  /\ (forall o, o ∉ kept -> snd s !! o = h !! o)
  /\ (forall o v, o ∈ kept -> h !! o = Some v ->
        exists v', snd s !! o = Some (reset p v')).
Proof.
  intros kept s. subst s. rewrite release_all_eq. fold kept. simpl.
  split; [done|]. split.
  { intros Hle. unfold size. simpl. rewrite length_app. subst kept.
    rewrite length_take. unfold size in *. lia. }
  generalize kept. clear kept. intros kept. revert h.
  induction kept as [|k kept IH]; intros h; simpl.
  - split; [done|]. split; [done|]. intros o v Ho. by apply elem_of_nil in Ho.
  - destruct (IH (alter (reset p) k h)) as (Hlen & Hout & Hin).
    rewrite length_alter in Hlen. split; [done|]. split.
    + intros o Ho. apply not_elem_of_cons in Ho as [Hne Ho].
      rewrite Hout by done. by apply list_lookup_alter_ne.
    + intros o v Ho Hv. destruct (decide (o ∈ kept)) as [Hk|Hk].
      * destruct (decide (o = k)) as [->|Hne].
        -- apply (Hin k (reset p v)); [done|].
           by rewrite list_lookup_alter_eq, Hv.
        -- apply (Hin o v); [done|]. by rewrite list_lookup_alter_ne.
      * apply elem_of_cons in Ho as [->|Ho]; [|done].
        exists v. rewrite Hout by done. by rewrite list_lookup_alter_eq, Hv.
Qed.

(** X6: [n] calls of [acquire] return the pooled objects from the last
    one released to the first, and, once the pool is empty, new
    objects built by the factory, each at a reference that no object
    had; the pool keeps the objects that were not taken, and no
    existing object is written. *)
Theorem acquire_drains_pool_then_builds (n : nat) p h :
  let a := acquire_n n (p, h) in
  fst a = rev (drop (size p - n) (pool p)) ++ seq (length h) (n - size p)
  /\ pool (fst (snd a)) = take (size p - n) (pool p)
  /\ snd (snd a) = h ++ replicate (n - size p) (factory p)
  /\ (forall o, o < length h -> snd (snd a) !! o = h !! o).
Proof.
  intros a. subst a. rewrite acquire_n_eq. simpl.
  repeat split. intros o Ho. by apply lookup_app_l.
Qed.

(** X7: the pool is last in, first out.  When the pool has room for
    all of them, objects that are released and then acquired, as many
    as were released, come back in the reverse order; the pool is then
    as it was before, and [acquire] wrote to no object.  An object
    released twice comes back twice. *)
Theorem pool_is_last_in_first_out objs p h :
  size p + length objs <= maxSize p ->
  let s := release_all objs (p, h) in
  let a := acquire_n (length objs) s in
  fst a = rev objs
  /\ fst (snd a) = p
  /\ snd (snd a) = snd s.
Proof.
  intros Hle s a. subst a s. rewrite release_all_eq, acquire_n_eq.
  rewrite take_ge by lia. unfold size. simpl. rewrite length_app.
  replace (length (pool p) + length objs - length objs)
    with (length (pool p)) by lia.
  replace (length objs - (length (pool p) + length objs)) with 0 by lia.
  rewrite drop_app_length, take_app_length. simpl.
  rewrite !app_nil_r. unfold with_pool. simpl. by destruct p.
Qed.

End Facts.

(** The theorem at [PointPool] with three points, of which the first
    is released twice. *)
Lemma pool_is_last_in_first_out_witness :
  let s := release_all [0; 2; 0]
             (PointPool (num := Z),
              [{| Point.x := 3; Point.y := 4 |};
               {| Point.x := 1; Point.y := 1 |};
               {| Point.x := 5; Point.y := 6 |}]%Z) in
  let a := acquire_n 3 s in
  fst a = [0; 2; 0]
  /\ fst (snd a) = PointPool
  /\ snd (snd a) = snd s.
Proof.
  apply (pool_is_last_in_first_out [0; 2; 0] (PointPool (num := Z))).
  simpl. lia.
Defined.

End PoolOrderFacts.

(* ================================================================== *)
(** ** JavaScript [Map] *)

Module JsMapFacts.
Section Facts.
Context {K V : Type} `{EqDecision K}.
Implicit Types (m : JsMap.t K V) (k : K) (v : V).

Lemma get_set_eq m k v : JsMap.get k (JsMap.set k v m) = Some v.
Proof.
  induction m as [|[k' v'] m IH]; simpl.
  - by rewrite decide_True.
  - destruct (decide (k = k')) as [->|Hne]; simpl.
    + by rewrite decide_True.
    + by rewrite decide_False.
Qed.

Lemma get_set_ne m k k' v :
  k <> k' -> JsMap.get k' (JsMap.set k v m) = JsMap.get k' m.
Proof.
  intros Hne. induction m as [|[k0 v0] m IH]; simpl.
  - by rewrite decide_False by congruence.
  - destruct (decide (k = k0)) as [->|Hne0]; simpl.
    + by rewrite !decide_False by congruence.
    + destruct (decide (k' = k0)); [done|exact IH].
Qed.

Lemma set_set m k v v' : JsMap.set k v (JsMap.set k v' m) = JsMap.set k v m.
Proof.
  induction m as [|[k0 v0] m IH]; simpl.
  - by rewrite decide_True.
  - destruct (decide (k = k0)) as [->|Hne]; simpl.
    + by rewrite decide_True.
    + rewrite decide_False by done. by rewrite IH.
Qed.

Lemma keys_set_present m k v :
  is_Some (JsMap.get k m) -> JsMap.keys (JsMap.set k v m) = JsMap.keys m.
Proof.
  unfold JsMap.keys. induction m as [|[k0 v0] m IH]; simpl.
  - by intros [? ?].
  - destruct (decide (k = k0)) as [->|Hne]; simpl; [done|].
    intros Hs. by rewrite IH.
Qed.

End Facts.
End JsMapFacts.

(* ================================================================== *)
(** ** The surfaces of the renderer *)

Module SurfaceFacts.
Import CanvasRenderer JsMapFacts.
Local Open Scope nat_scope.

Section Facts.
Context {num : Type} {N : Number num}.
Implicit Types (r : CanvasRenderer.t num).

Lemma new_constructed (w h ratio : num) :
  CanvasRenderer.new Scope.Bound w h ratio
  = Exec.Ok (CanvasRenderer.constructed w h ratio)
  /\ CanvasRenderer.new Scope.Unbound w h ratio
     = Exec.Throw "ReferenceError: RenderLayer is not defined".
Proof. split; reflexivity. Qed.

Lemma constructed_uniform (w h ratio : num) :
  uniform (fst (CanvasRenderer.constructed w h ratio)).
Proof. unfold uniform. simpl. repeat constructor. Qed.

Lemma resize_uniform r (w h : num) :
  Forall (fun e => CanvasLayer.dpr (snd e) = dpr r) (layers r) ->
  uniform (fst (resize w h r)).
Proof.
  unfold uniform, resize. simpl. intros Hd.
  apply Forall_map. eapply Forall_impl; [exact Hd|].
  intros [k l] Hl. simpl in *. by rewrite Hl.
Qed.

Lemma uniform_dpr r :
  uniform r -> Forall (fun e => CanvasLayer.dpr (snd e) = dpr r) (layers r).
Proof. intros Hu. eapply Forall_impl; [exact Hu|]. simpl. tauto. Qed.

(** X8: [resize(width, height)] on a renderer whose layers have its
    size and pixel ratio reaches every layer: afterwards the renderer
    and each layer have the new logical size; the width and the height
    of each canvas are what the canvas stores of that size times the
    pixel ratio, an [unsigned long], so that a fraction is dropped
    (801 times 1.5 is stored as 1201); the pixel ratio and the layers'
    order are as before, every layer is dirty, and each context was
    scaled once by the pixel ratio, in layer order.  The size before
    the [resize] leaves no trace: a second [resize] gives the state
    that it alone would have given. *)
Theorem resize_reaches_every_layer r (w h w' h' : num) :
  uniform r ->
  let r1 := fst (resize w h r) in
  uniform r1
  /\ Forall (fun e =>
               CanvasLayer.style_width (snd e) = w
               /\ CanvasLayer.style_height (snd e) = h
               /\ CanvasLayer.canvas_width (snd e)
                  = CanvasLayer.canvas_dimension 300 (num_mul w (dpr r))
               /\ CanvasLayer.canvas_height (snd e)
                  = CanvasLayer.canvas_dimension 150 (num_mul h (dpr r)))
            (layers r1)
  /\ width r1 = w /\ height r1 = h /\ dpr r1 = dpr r
  /\ JsMap.keys (layers r1) = JsMap.keys (layers r)
  /\ Forall (fun e => CanvasLayer.isDirty (snd e) = true) (layers r1)
  /\ snd (resize w h r)
     = map (fun k => Draw.OnContext k (Draw.scale (dpr r) (dpr r)))
           (JsMap.keys (layers r))
  /\ fst (resize w' h' r1) = fst (resize w' h' r).
Proof.
  intros Hu r1. pose proof (uniform_dpr r Hu) as Hd.
  split; [by apply resize_uniform|].
  split.
  { pose proof (resize_uniform r w h Hd) as Hu1. fold r1 in Hu1.
    eapply Forall_impl; [exact Hu1|]. subst r1. simpl. tauto. }
  subst r1. unfold resize, JsMap.keys. simpl.
  repeat split.
  - by rewrite map_map.
  - apply Forall_map. by apply Forall_true.
  - clear Hu. induction (layers r) as [|[k l] m IH]; [done|].
    apply Forall_cons in Hd as [Hl Hd]. simpl in *. rewrite Hl. f_equal.
    by apply IH.
  - f_equal. rewrite map_map. done.
Qed.

(** X9: [clear(layer, rect)] touches one layer.  When the layer
    exists it issues one [clearRect] on that layer's context, over
    [rect] or, without one, over the whole canvas, marks that layer
    dirty and leaves every other layer and the layers' order as they
    were; when the layer does not exist it throws "Layer not found"
    and changes nothing. *)
Theorem clear_touches_one_layer r (l : RenderLayer) (rect : option (Rect.t num)) :
  match JsMap.get l (layers r) with
  | Some layer =>
      exists r',
        clear l rect r
        = (Exec.Ok tt,
           (r', [Draw.OnContext l
                   match rect with
                   | Some b => Draw.clearRect (Rect.x b) (Rect.y b)
                                 (Rect.width b) (Rect.height b)
                   | None => Draw.clearRect num_zero num_zero
                               (CanvasLayer.canvas_width layer)
                               (CanvasLayer.canvas_height layer)
                   end]))
        /\ JsMap.get l (layers r') = Some (CanvasLayer.set_dirty true layer)
        /\ (forall l', l' <> l -> JsMap.get l' (layers r') = JsMap.get l' (layers r))
        /\ JsMap.keys (layers r') = JsMap.keys (layers r)
  | None =>
      clear l rect r = (Exec.Throw ("Layer not found: " ++ layer_number l), (r, []))
  end.
Proof.
  unfold clear, getLayer.
  destruct (JsMap.get l (layers r)) as [layer|] eqn:E; [|done].
  eexists. split; [reflexivity|]. simpl. repeat split.
  - apply get_set_eq.
  - intros l' Hne. apply get_set_ne. congruence.
  - apply keys_set_present. by rewrite E.
Qed.

End Facts.

(** The theorem on binary64 numbers, at a new 800 by 600 renderer of
    pixel ratio 1.5, resized to 801 by 601. *)
Lemma resize_reaches_every_layer_witness :
  let r : CanvasRenderer.t float :=
    fst (CanvasRenderer.constructed 800%float 600%float 0x1.8p+0%float) in
  let r1 := fst (resize 801%float 601%float r) in
  uniform r1
  /\ Forall (fun e =>
               CanvasLayer.style_width (snd e) = 801%float
               /\ CanvasLayer.style_height (snd e) = 601%float
               /\ CanvasLayer.canvas_width (snd e)
                  = CanvasLayer.canvas_dimension 300 (num_mul 801%float (dpr r))
               /\ CanvasLayer.canvas_height (snd e)
                  = CanvasLayer.canvas_dimension 150 (num_mul 601%float (dpr r)))
            (layers r1)
  /\ width r1 = 801%float /\ height r1 = 601%float /\ dpr r1 = dpr r
  /\ JsMap.keys (layers r1) = JsMap.keys (layers r)
  /\ Forall (fun e => CanvasLayer.isDirty (snd e) = true) (layers r1)
  /\ snd (resize 801%float 601%float r)
     = map (fun k => Draw.OnContext k (Draw.scale (dpr r) (dpr r)))
           (JsMap.keys (layers r))
  /\ fst (resize 400%float 300%float r1) = fst (resize 400%float 300%float r).
Proof.
  apply (resize_reaches_every_layer
           (fst (CanvasRenderer.constructed 800%float 600%float 0x1.8p+0%float))
           801%float 601%float 400%float 300%float).
  apply constructed_uniform.
Defined.

(** The canvases of that renderer after the [resize]: 801 times 1.5
    is 1201.5 and 601 times 1.5 is 901.5; the canvases are 1201 by
    901. *)
Example resized_canvases_drop_fractions :
  let r : CanvasRenderer.t float :=
    fst (CanvasRenderer.constructed 800%float 600%float 0x1.8p+0%float) in
  map (fun e => (CanvasLayer.canvas_width (snd e), CanvasLayer.canvas_height (snd e)))
      (layers (fst (resize 801%float 601%float r)))
  = [(1201%float, 901%float); (1201%float, 901%float); (1201%float, 901%float);
     (1201%float, 901%float); (1201%float, 901%float)].
Proof. reflexivity. Qed.

End SurfaceFacts.

(* ================================================================== *)
(** ** Requests that are replaced or cancelled *)

Module CancellationFacts.
Import CanvasRenderer SchedulerFacts.
Local Open Scope nat_scope.

Section Facts.
Context {num : Type} {N : Number num}.
Implicit Types (w : world num) (c : Callback).

Lemma schedule_all_keeps_tracked (cs : list Callback) w :
  tracked w -> tracked (schedule_all cs w).
Proof.
  revert w. induction cs as [|c cs IH]; intros w Hw; [done|]. simpl.
  apply IH. destruct (scheduleRender_tracked c w Hw) as (H1 & H2 & _).
  unfold tracked. rewrite H1. eauto.
Qed.

(** X10: while the renderer's handle is in step with the window,
    however many calls of [scheduleRender] are made before the next
    frame, one request is pending after them, that of the last call,
    and the renderer holds its handle; no callback has run; and in the
    next frame the callback of the last call runs, and no callback of
    the calls before it. *)
Theorem scheduled_burst_runs_last_callback_only (cs : list Callback) c w :
  tracked w ->
  let w1 := schedule_all (cs ++ [c]) w in
  (exists handle,
      animationFrameId (renderer w1) = Some handle
      /\ Window.frame_callbacks (window w1) = [(handle, c)])
  /\ executed w1 = executed w
  /\ executed (animation_frame w1) = executed w ++ [label c].
Proof.
  intros Hw w1. subst w1.
  destruct (schedule_all_tracked cs c w Hw) as (handle & Hid & Hcb & Hex).
  split; [by exists handle|]. split; [done|].
  by apply scheduleRender_coalesces.
Qed.

(** X11: while the renderer's handle is in step with the window,
    [cancelRender()] after any number of [scheduleRender] calls leaves
    no request pending and the handle [null], so that the next frame
    runs none of the callbacks; [destroy()] cancels in the same way. *)
Theorem cancelled_callback_never_fires (cs : list Callback) w :
  tracked w ->
  let w' := cancelRender (schedule_all cs w) in
  Window.frame_callbacks (window w') = []
  /\ animationFrameId (renderer w') = None
  /\ executed (animation_frame w') = executed w
  /\ executed (animation_frame (destroy (schedule_all cs w))) = executed w.
Proof.
  intros Hw w'.
  pose proof (schedule_all_keeps_tracked cs w Hw) as Ht.
  pose proof (schedule_all_executed cs w) as Hex.
  assert (Window.frame_callbacks (window w') = []
          /\ animationFrameId (renderer w') = None
          /\ executed w' = executed w) as (Hcb & Hid & Hex').
  { subst w'. unfold cancelRender, tracked in *.
    destruct (animationFrameId (renderer (schedule_all cs w))) as [handle|] eqn:E.
    - destruct Ht as [c Hc]. simpl.
      unfold Window.cancelAnimationFrame, Window.remove. simpl.
      rewrite Hc, filter_cons_False by (simpl; intros H; by apply H).
      done.
    - by rewrite Ht, E. }
  repeat split; try done.
  - unfold animation_frame. rewrite Hcb. simpl. done.
  - unfold destroy. fold w'. unfold animation_frame. simpl. rewrite Hcb.
    simpl. done.
Qed.

End Facts.

(** Three calls on a new renderer, the second with a callback that
    would ask for one more frame: the frame runs the third. *)
Lemma scheduled_burst_runs_last_callback_only_witness :
  let w1 := schedule_all
              ([callback 1 []; callback 2 [callback 9 []]] ++ [callback 3 []])
              world0 in
  (exists handle,
      animationFrameId (renderer w1) = Some handle
      /\ Window.frame_callbacks (window w1) = [(handle, callback 3 [])])
  /\ executed w1 = executed world0
  /\ executed (animation_frame w1) = executed world0 ++ [label (callback 3 [])].
Proof.
  apply (scheduled_burst_runs_last_callback_only
           [callback 1 []; callback 2 [callback 9 []]] (callback 3 []) world0).
  reflexivity.
Defined.

(** Two calls on a new renderer and then [cancelRender()]. *)
Lemma cancelled_callback_never_fires_witness :
  let w' := cancelRender (schedule_all [callback 1 []; callback 2 []] world0) in
  Window.frame_callbacks (window w') = []
  /\ animationFrameId (renderer w') = None
  /\ executed (animation_frame w') = executed world0
  /\ executed (animation_frame
                 (destroy (schedule_all [callback 1 []; callback 2 []] world0)))
     = executed world0.
Proof.
  apply (cancelled_callback_never_fires [callback 1 []; callback 2 []] world0).
  reflexivity.
Defined.

End CancellationFacts.

(* ================================================================== *)
(** ** Frames of the chart *)

Module ChartFrameFacts.
Import CanvasRenderer Chart JsMapFacts ChartFacts SurfaceFacts.
Local Open Scope nat_scope.

Section Facts.
Context {num : Type} {N : Number num}.
Implicit Types (c : Chart.t num) (r : CanvasRenderer.t num).

Lemma push_bucket (k : RenderLayer) (renderable : Renderable) c (l : RenderLayer) :
  JsMap.get l (renderables (push k renderable c))
  = if decide (l = k)
    then Some (default [] (JsMap.get l (renderables c)) ++ [renderable])
    else JsMap.get l (renderables c).
Proof.
  unfold push, JsMap.has.
  destruct (JsMap.get k (renderables c)) as [bucket|] eqn:E; simpl.
  - rewrite E. simpl. destruct (decide _) as [->|Hne].
    + by rewrite get_set_eq, E.
    + by rewrite get_set_ne by congruence.
  - rewrite get_set_eq. simpl. destruct (decide _) as [->|Hne].
    + by rewrite get_set_eq, E.
    + by rewrite !get_set_ne by congruence.
Qed.

Lemma push_frame (k : RenderLayer) (renderable : Renderable) c :
  renderer (push k renderable c) = renderer c
  /\ coordinateSystem (push k renderable c) = coordinateSystem c
  /\ config (push k renderable c) = config c.
Proof. unfold push. by destruct (JsMap.get _ _). Qed.

(** What [add] returns. *)
Lemma add_cases (scope : Scope.t) (renderable : Renderable) c :
  add scope renderable c
  = match layer renderable, scope with
    | None, Scope.Unbound =>
        (Exec.Throw "ReferenceError: RenderLayer is not defined", c)
    | _, _ => (Exec.Ok tt, push (default Data (layer renderable)) renderable c)
    end.
Proof.
  unfold add, Exec.bind, Exec.modify.
  by destruct (layer renderable), scope.
Qed.

(** X12: [add(renderable)] appends the renderable to the list of the
    layer it names, after the renderables added before; it changes the
    list of no other layer, and leaves the renderer, the coordinate
    system and the config as they were.  For a renderable that names
    no layer the layer is [RenderLayer.Data]: with [RenderLayer] bound
    the renderable is appended to the list of the data layer, and with
    [RenderLayer] unbound [add] throws a ReferenceError and leaves the
    chart as it was. *)
Theorem add_appends_to_its_layer (scope : Scope.t) (renderable : Renderable) c :
  match layer renderable, scope with
  | None, Scope.Unbound =>
      add scope renderable c
      = (Exec.Throw "ReferenceError: RenderLayer is not defined", c)
  | named, _ =>
      exists c',
        add scope renderable c = (Exec.Ok tt, c')
        /\ (forall l, JsMap.get l (renderables c')
                      = (if decide (l = default Data named)
                         then Some (default [] (JsMap.get l (renderables c))
                                      ++ [renderable])
                         else JsMap.get l (renderables c)))
        /\ renderer c' = renderer c
        /\ coordinateSystem c' = coordinateSystem c
        /\ config c' = config c
  end.
Proof.
  rewrite add_cases.
  destruct (layer renderable) as [k|] eqn:E, scope; try done;
    (eexists; split; [reflexivity|]); (split; [|apply push_frame]);
    intros l; apply push_bucket.
Qed.

Lemma calls_of_push (k : RenderLayer) (renderable : Renderable) c (l : RenderLayer) :
  calls_of (push k renderable c) l
  = calls_of c l
    ++ (if decide (l = k)
        then (if shown renderable then [(renderable, l)] else [])
        else []).
Proof.
  unfold calls_of. rewrite push_bucket.
  destruct (decide _) as [->|Hne].
  - destruct (JsMap.get _ (renderables c)) as [bucket|]; simpl.
    + rewrite filter_app, map_app. f_equal.
      destruct (shown renderable) eqn:E.
      * by rewrite filter_cons_True.
      * rewrite filter_cons_False; [done|]. by rewrite E.
    + destruct (shown renderable) eqn:E.
      * by rewrite filter_cons_True.
      * rewrite filter_cons_False; [done|]. by rewrite E.
  - by rewrite app_nil_r.
Qed.

(** X13: when [add(renderable)] returns, the calls of the next frame
    are those of the frame before it with one more, that of the new
    renderable, after the last renderable of its layer (and before the
    renderables of the layers that follow), with the context of that
    layer; a renderable whose [visible] is [false] adds none.  With
    [RenderLayer] bound and renderables that return, [render()] then
    draws that frame. *)
Theorem added_renderable_is_drawn_last_in_its_layer
    (behaviour : Renderable -> RenderLayer -> Exec.result unit)
    (scope : Scope.t) (renderable : Renderable) c c' :
  live (renderer c) ->
  add scope renderable c = (Exec.Ok tt, c') ->
  let calls :=
    flat_map
      (fun l =>
         calls_of c l
         ++ (if decide (l = default Data (layer renderable))
             then (if shown renderable then [(renderable, l)] else [])
             else []))
      layerOrder in
  frame_calls c' = calls
  /\ (Forall (returns behaviour) calls ->
      run_render Scope.Bound behaviour c'
      = (Exec.Ok tt,
         (set_renderer (all_dirty (renderer c)) c',
          clears (renderer c) ++ background_fill c ++ map drawn calls))).
Proof.
  intros Hlive Hadd calls. rewrite add_cases in Hadd.
  assert (c' = push (default Data (layer renderable)) renderable c) as ->
    by (destruct (layer renderable), scope; congruence).
  destruct (push_frame (default Data (layer renderable)) renderable c)
    as (Hr & _ & Hc).
  assert (frame_calls (push (default Data (layer renderable)) renderable c) = calls)
    as Hcalls.
  { unfold frame_calls. subst calls. apply flat_map_ext. intros l.
    apply calls_of_push. }
  split; [done|]. intros Hall. unfold run_render.
  rewrite render_bound by (by rewrite Hr).
  rewrite Hcalls, (run_calls_return _ _ Hall). simpl.
  unfold background_fill. by rewrite Hr, Hc.
Qed.

Lemma clears_all_dirty r : clears (all_dirty r) = clears r.
Proof.
  unfold clears, all_dirty. simpl. rewrite map_map. done.
Qed.

Lemma all_dirty_twice r : all_dirty (all_dirty r) = all_dirty r.
Proof.
  unfold all_dirty, set_layers. simpl. f_equal. rewrite map_map. done.
Qed.

(** X14: [render()] is repeatable.  Whether [RenderLayer] is bound or
    not, and whether the renderables return or throw, on the chart
    that one [render()] leaves a second [render()], with renderables
    that do as they did, issues the same calls in the same order, ends
    in the same way and leaves the same chart. *)
Theorem render_is_repeatable
    (behaviour : Renderable -> RenderLayer -> Exec.result unit)
    (scope : Scope.t) c :
  live (renderer c) ->
  let first := run_render scope behaviour c in
  run_render scope behaviour (fst (snd first)) = first.
Proof.
  intros Hlive first. subst first. unfold run_render. destruct scope.
  - rewrite !render_unbound. cbn [fst snd renderer set_renderer].
    by rewrite clears_all_dirty, all_dirty_twice.
  - rewrite (render_bound behaviour c [] Hlive). cbn [fst snd].
    rewrite render_bound by (simpl; by apply live_all_dirty).
    cbn [renderer set_renderer]. rewrite clears_all_dirty, all_dirty_twice.
    reflexivity.
Qed.

(** X15: once the renderer has been destroyed, no layer is found, and
    [render()] throws without a call on any context and without a
    [render(ctx)] of any renderable: with [RenderLayer] bound it
    throws "Layer not found: 0" at the background repaint, and with
    [RenderLayer] unbound the ReferenceError of evaluating
    [RenderLayer.Background]. *)
Theorem render_after_destroy
    (behaviour : Renderable -> RenderLayer -> Exec.result unit)
    c (w : CanvasRenderer.world num) :
  let destroyed :=
    set_renderer (CanvasRenderer.renderer (CanvasRenderer.destroy w)) c in
  (forall l,
      CanvasRenderer.getLayer l (CanvasRenderer.renderer (CanvasRenderer.destroy w))
      = Exec.Throw ("Layer not found: " ++ layer_number l))
  /\ run_render Scope.Bound behaviour destroyed
     = (Exec.Throw "Layer not found: 0", (destroyed, []))
  /\ run_render Scope.Unbound behaviour destroyed
     = (Exec.Throw "ReferenceError: RenderLayer is not defined", (destroyed, [])).
Proof.
  split; [|split]; reflexivity.
Qed.

Lemma constructed_in_step (w h : num) (m : option (Margin.t num))
    (bg : option string) (ratio : num) :
  in_step (Chart.constructed w h m bg ratio).
Proof.
  unfold in_step. repeat split; try reflexivity. apply constructed_uniform.
Qed.

Lemma add_in_step (scope : Scope.t) (renderable : Renderable) c :
  in_step c -> in_step (snd (add scope renderable c)).
Proof.
  rewrite add_cases. unfold in_step.
  destruct (layer renderable), scope; simpl; try done;
    unfold push; by destruct (JsMap.get _ _).
Qed.

Lemma uniform_all_dirty r : uniform r -> uniform (all_dirty r).
Proof.
  unfold uniform, all_dirty. simpl. intros Hu.
  apply Forall_map. eapply Forall_impl; [exact Hu|]. by intros [k l].
Qed.

Lemma in_step_rendered c :
  in_step c -> in_step (set_renderer (all_dirty (renderer c)) c).
Proof.
  unfold in_step. simpl. intros (?&?&?&?&?&?).
  repeat split; try done. by apply uniform_all_dirty.
Qed.

Lemma live_resize r (w h : num) : live r -> live (fst (resize w h r)).
Proof.
  unfold live, resize, JsMap.keys. simpl. intros <-. by rewrite map_map.
Qed.

(** [render()] leaves the chart that [clearAll()] leaves, and its
    calls follow those made before it. *)
Lemma render_from
    (behaviour : Renderable -> RenderLayer -> Exec.result unit)
    (scope : Scope.t) c (pre : list (Draw.event num)) :
  live (renderer c) ->
  render scope behaviour (c, pre)
  = (fst (run_render scope behaviour c),
     (fst (snd (run_render scope behaviour c)),
      pre ++ snd (snd (run_render scope behaviour c))))
  /\ fst (snd (run_render scope behaviour c))
     = set_renderer (all_dirty (renderer c)) c.
Proof.
  intros Hlive. unfold run_render. destruct scope.
  - by rewrite !render_unbound.
  - by rewrite !render_bound.
Qed.

(** X16: [update(config)] keeps the chart in step.  On a chart whose
    config, surfaces and coordinate system agree on the size and on
    the margin, the width, the height and the margin of the config
    become those given, and stay the former ones where none is given;
    the surfaces and the coordinate system are brought to the same
    size and margin before the frame is drawn; the background colour
    and the renderables are as before; and what follows the resizing
    is exactly [render()] on the chart so updated: its calls, and its
    way of ending, which is that of [update]. *)
Theorem update_keeps_chart_in_step
    (behaviour : Renderable -> RenderLayer -> Exec.result unit)
    (scope : Scope.t) (cfg : option (PartialConfig num)) c :
  in_step c -> live (renderer c) ->
  exists c1 pre,
    in_step c1 /\ live (renderer c1)
    /\ cfg_width (config c1)
       = default (cfg_width (config c))
           (match cfg with Some p => new_width p | None => None end)
    /\ cfg_height (config c1)
       = default (cfg_height (config c))
           (match cfg with Some p => new_height p | None => None end)
    /\ cfg_margin (config c1)
       = default (cfg_margin (config c))
           (match cfg with Some p => new_margin p | None => None end)
    /\ backgroundColor (config c1) = backgroundColor (config c)
    /\ renderables c1 = renderables c
    /\ run_update scope behaviour cfg c
       = (fst (run_render scope behaviour c1),
          (fst (snd (run_render scope behaviour c1)),
           pre ++ snd (snd (run_render scope behaviour c1))))
    /\ in_step (fst (snd (run_render scope behaviour c1))).
Proof.
  intros Hstep Hlive.
  assert (forall c1 pre, live (renderer c1) -> in_step c1 ->
            render scope behaviour (c1, pre)
            = (fst (run_render scope behaviour c1),
               (fst (snd (run_render scope behaviour c1)),
                pre ++ snd (snd (run_render scope behaviour c1))))
            /\ in_step (fst (snd (run_render scope behaviour c1)))) as Hrender.
  { intros c1 pre Hl Hs.
    destruct (render_from behaviour scope c1 pre Hl) as [-> ->].
    split; [done|]. by apply in_step_rendered. }
  assert (forall p, exists c1 pre,
            update_size p (c, []) = (Exec.Ok tt, (c1, pre))
            /\ in_step c1 /\ live (renderer c1)
            /\ cfg_width (config c1)
               = default (cfg_width (config c)) (new_width p)
            /\ cfg_height (config c1)
               = default (cfg_height (config c)) (new_height p)
            /\ cfg_margin (config c1) = cfg_margin (config c)
            /\ backgroundColor (config c1) = backgroundColor (config c)
            /\ renderables c1 = renderables c) as Hsize.
  { intros p. destruct Hstep as (Hw & Hh & Hcw & Hch & Hm & Hu).
    pose proof (uniform_dpr _ Hu) as Hd.
    unfold update_size.
    destruct (new_width p) as [w|], (new_height p) as [h|];
      (eexists _, _; split; [reflexivity|]); simpl;
      split_and!; try done;
      first [ by apply live_resize
            | unfold in_step; simpl; split_and!; try done; by apply resize_uniform
            | unfold in_step; split_and!; done ]. }
  assert (forall p c0, in_step c0 -> exists c1,
            forall pre, update_margin p (c0, pre) = (Exec.Ok tt, (c1, pre))
            /\ in_step c1 /\ renderer c1 = renderer c0
            /\ cfg_width (config c1) = cfg_width (config c0)
            /\ cfg_height (config c1) = cfg_height (config c0)
            /\ cfg_margin (config c1)
               = default (cfg_margin (config c0)) (new_margin p)
            /\ backgroundColor (config c1) = backgroundColor (config c0)
            /\ renderables c1 = renderables c0) as Hmargin.
  { intros p c0 (Hw & Hh & Hcw & Hch & Hm & Hu). unfold update_margin.
    destruct (new_margin p) as [[t r b l]|];
      (eexists; intros pre; unfold Exec.modify, Exec.ret; cbn [fst snd];
       split; [reflexivity|]); simpl;
      split_and!; try done; unfold in_step; simpl; split_and!; done. }
  destruct cfg as [p|].
  - destruct (Hsize p) as (c1 & pre & E1 & Hs1 & Hl1 & Hw1 & Hh1 & Hm1 & Hb1 & Hr1).
    destruct (Hmargin p c1 Hs1) as (c2 & H2).
    destruct (H2 pre) as (E2 & Hs2 & Hrr & Hw2 & Hh2 & Hm2 & Hb2 & Hr2).
    assert (live (renderer c2)) as Hl2 by (by rewrite Hrr).
    destruct (Hrender c2 pre Hl2 Hs2) as [Er Hsr].
    exists c2, pre. split_and!; try done; try congruence.
    unfold run_update, update. unfold Exec.bind at 1. rewrite E1.
    unfold Exec.bind at 1. rewrite E2. exact Er.
  - destruct (Hrender c [] Hlive Hstep) as [Er Hsr].
    exists c, []. split_and!; try done.
Qed.

End Facts.

(** The theorem at [chart0] and a fifth renderable, for the grid
    layer. *)
Lemma added_renderable_is_drawn_last_in_its_layer_witness :
  let renderable := {| id := 4; layer := Some Grid; visible := None |} in
  let c' := push Grid renderable chart0 in
  let calls :=
    flat_map
      (fun l =>
         calls_of chart0 l
         ++ (if decide (l = default Data (layer renderable))
             then (if shown renderable then [(renderable, l)] else [])
             else []))
      layerOrder in
  frame_calls c' = calls
  /\ (Forall (returns quiet) calls ->
      run_render Scope.Bound quiet c'
      = (Exec.Ok tt,
         (set_renderer (all_dirty (renderer chart0)) c',
          clears (renderer chart0) ++ background_fill chart0 ++ map drawn calls))).
Proof.
  apply (added_renderable_is_drawn_last_in_its_layer quiet Scope.Unbound
           {| id := 4; layer := Some Grid; visible := None |} chart0).
  - reflexivity.
  - reflexivity.
Defined.

(** The calls of that frame: the new renderable comes after the grid
    layer's hidden one and before the data layer's. *)
Example frame_calls_after_add :
  map (fun call => (id (fst call), snd call))
      (frame_calls
         (push Grid {| id := 4; layer := Some Grid; visible := None |} chart0))
  = [(2, Background); (4, Grid); (0, Data); (3, Data)].
Proof. reflexivity. Qed.

(** The theorem at [chart0], for a frame in which a renderable
    throws. *)
Lemma render_is_repeatable_witness :
  let first := run_render Scope.Bound faulty chart0 in
  run_render Scope.Bound faulty (fst (snd first)) = first.
Proof.
  apply (render_is_repeatable faulty Scope.Bound chart0). reflexivity.
Defined.

(** The theorem at [chart0], given a new width and a new margin. *)
Lemma update_keeps_chart_in_step_witness :
  let cfg :=
    Some {| new_width := Some 400%Z; new_height := None;
            new_margin := Some {| Margin.top := 5%Z; Margin.right := 5%Z;
                                  Margin.bottom := 5%Z; Margin.left := 5%Z |} |} in
  exists c1 pre,
    in_step c1 /\ live (renderer c1)
    /\ cfg_width (config c1)
       = default (cfg_width (config chart0))
           (match cfg with Some p => new_width p | None => None end)
    /\ cfg_height (config c1)
       = default (cfg_height (config chart0))
           (match cfg with Some p => new_height p | None => None end)
    /\ cfg_margin (config c1)
       = default (cfg_margin (config chart0))
           (match cfg with Some p => new_margin p | None => None end)
    /\ backgroundColor (config c1) = backgroundColor (config chart0)
    /\ renderables c1 = renderables chart0
    /\ run_update Scope.Bound quiet cfg chart0
       = (fst (run_render Scope.Bound quiet c1),
          (fst (snd (run_render Scope.Bound quiet c1)),
           pre ++ snd (snd (run_render Scope.Bound quiet c1))))
    /\ in_step (fst (snd (run_render Scope.Bound quiet c1))).
Proof.
  apply (update_keeps_chart_in_step quiet Scope.Bound
           (Some {| new_width := Some 400%Z; new_height := None;
                    new_margin := Some {| Margin.top := 5%Z; Margin.right := 5%Z;
                                          Margin.bottom := 5%Z;
                                          Margin.left := 5%Z |} |})
           chart0).
  - unfold chart0. do 4 apply add_in_step. apply constructed_in_step.
  - reflexivity.
Defined.

(** [update] on a chart of binary64 numbers, 800 by 600 at pixel
    ratio 1.5, given the width 801: the canvases are 1201 wide, and
    the frame clears that many pixels. *)
Example update_to_fractional_canvas :
  let c : Chart.t float :=
    constructed 800%float 600%float None None 0x1.8p+0%float in
  snd (snd (run_update Scope.Bound quiet
              (Some {| new_width := Some 801%float; new_height := None;
                       new_margin := None |}) c)) !! 5
  = Some (Draw.OnContext Background
            (Draw.clearRect 0%float 0%float 1201%float 900%float)).
Proof. reflexivity. Qed.

End ChartFrameFacts.
(* ================================================================== *)
(** ** Registration and delivery of events *)

Module RegistrationFacts.
Import EventManager JsMapFacts.
Local Open Scope nat_scope.

Section Facts.
Context {num : Type} {N : Number num}.
Implicit Types (em : EventManager.t num) (ty : EventType) (h : EventHandler).

Lemma set_add_elem h (s : list EventHandler) : h ∈ s -> set_add h s = s.
Proof. intros Hin. unfold set_add. by rewrite decide_True. Qed.

Lemma set_add_twice h (s : list EventHandler) :
  set_add h (set_add h s) = set_add h s.
Proof.
  apply set_add_elem. unfold set_add. destruct (decide (h ∈ s)); [done|].
  apply elem_of_app. right. by left.
Qed.

Lemma NoDup_set_add h (s : list EventHandler) : NoDup s -> NoDup (set_add h s).
Proof.
  intros Hs. unfold set_add. destruct (decide (h ∈ s)); [done|].
  apply NoDup_app. repeat split; [done| |apply NoDup_singleton].
  intros x Hx Hx'. apply list_elem_of_singleton in Hx'. by subst.
Qed.

Lemma on_handlers ty h em :
  handlers (on ty h em)
  = JsMap.set ty (set_add h (registered ty em))
      (if JsMap.has ty (handlers em) then handlers em
       else JsMap.set ty [] (handlers em)).
Proof.
  unfold on, registered, JsMap.has.
  destruct (JsMap.get ty (handlers em)) as [s|] eqn:E; simpl.
  - by rewrite E.
  - by rewrite get_set_eq.
Qed.

Lemma registered_on ty h em ty' :
  registered ty' (on ty h em)
  = if decide (ty' = ty) then set_add h (registered ty' em)
    else registered ty' em.
Proof.
  unfold registered at 1. rewrite on_handlers.
  destruct (decide (ty' = ty)) as [->|Hne].
  - by rewrite get_set_eq.
  - rewrite get_set_ne by congruence. unfold registered, JsMap.has.
    destruct (JsMap.get ty (handlers em)); [done|].
    by rewrite get_set_ne by congruence.
Qed.

Lemma registered_off ty h em ty' :
  registered ty' (off ty h em)
  = if decide (ty' = ty) then set_delete h (registered ty' em)
    else registered ty' em.
Proof.
  unfold off, registered.
  destruct (JsMap.get ty (handlers em)) as [s|] eqn:E; simpl.
  - destruct (decide (ty' = ty)) as [->|Hne].
    + by rewrite get_set_eq, E.
    + by rewrite get_set_ne by congruence.
  - destruct (decide (ty' = ty)) as [->|Hne]; [|done].
    by rewrite E.
Qed.

Lemma canvas_register_all (rs : list registration) em :
  canvas (register_all rs em) = canvas em
  /\ boundListeners (register_all rs em) = boundListeners em.
Proof.
  revert em. induction rs as [|r rs IH]; intros em; [done|]. simpl.
  destruct (IH (register em r)) as [-> ->].
  destruct r as [ty h|ty h]; simpl; unfold on, off;
    repeat match goal with
      | |- context [match ?x with _ => _ end] => destruct x
      end;
    done.
Qed.

Lemma NoDup_registered (rs : list registration) em ty :
  (forall ty', NoDup (registered ty' em)) ->
  NoDup (registered ty (register_all rs em)).
Proof.
  revert em. induction rs as [|r rs IH]; intros em Hem; [apply Hem|]. simpl.
  apply IH. intros ty'. destruct r as [ty0 h|ty0 h]; simpl.
  - rewrite registered_on. destruct (decide _); [|apply Hem].
    apply NoDup_set_add, Hem.
  - rewrite registered_off. destruct (decide _); [|apply Hem].
    apply NoDup_filter, Hem.
Qed.

Lemma new_state (c : Canvas num) :
  handlers (new c) = [] /\ boundListeners (new c) = eventTypes
  /\ listeners (canvas (new c)) = listeners c ++ eventTypes.
Proof. unfold new, setupEventListeners. simpl. by rewrite <- !app_assoc. Qed.

Lemma all_types_bound ty : ty ∈ eventTypes.
Proof. destruct ty; unfold eventTypes; repeat constructor. Qed.

Lemma removed_listener (tys : list EventType) (c : Canvas num) ty :
  ty ∈ tys ->
  ty ∉ listeners (fold_left (fun c ty => removeEventListener ty c) tys c).
Proof.
  revert c. induction tys as [|t tys IH]; intros c Hin;
    [by apply elem_of_nil in Hin|].
  simpl. destruct (decide (ty ∈ tys)) as [Hin'|Hnin]; [by apply IH|].
  apply elem_of_cons in Hin as [->|Hin]; [|done].
  assert (forall c' : Canvas num, t ∉ listeners c' ->
            t ∉ listeners (fold_left (fun c ty => removeEventListener ty c) tys c'))
    as Hkeep.
  { clear. induction tys as [|t' tys IH]; intros c' Hc'; [done|]. simpl.
    apply IH. simpl. rewrite list_elem_of_filter. tauto. }
  apply Hkeep. simpl. rewrite list_elem_of_filter. tauto.
Qed.

(** X17: [on(type, handler)] registers a handler once.  A handler
    that is not yet registered for the type is put after the handlers
    registered before it; one that is registered already stays where
    it is, so that a second [on] with the same arguments changes
    nothing; the handlers of every other type are as before. *)
Theorem on_registers_once ty h em :
  (forall ty', registered ty' (on ty h em)
               = (if decide (ty' = ty)
                  then (if decide (h ∈ registered ty' em) then registered ty' em
                        else registered ty' em ++ [h])
                  else registered ty' em))
  /\ on ty h (on ty h em) = on ty h em.
Proof.
  split.
  - intros ty'. by rewrite registered_on.
  - pose proof (on_handlers ty h em) as Hh.
    unfold on at 1. unfold JsMap.has. rewrite Hh, get_set_eq. simpl.
    rewrite get_set_eq, set_add_twice, set_set, <- Hh.
    by destruct (on ty h em).
Qed.

(** X18: [off(type, handler)] removes the handler from the handlers
    of the type and keeps the others in their order; afterwards the
    handler is not registered for the type, whether it was or not;
    the handlers of every other type are as before; and [off] after
    [on] of a handler that was not registered gives back the handlers
    there were. *)
Theorem off_undoes_on ty h em :
  (forall ty', registered ty' (off ty h em)
               = (if decide (ty' = ty)
                  then filter (fun h' => h' <> h) (registered ty' em)
                  else registered ty' em))
  /\ (h ∉ registered ty (off ty h em))
  /\ (h ∉ registered ty em ->
      forall ty', registered ty' (off ty h (on ty h em)) = registered ty' em).
Proof.
  split; [|split].
  - intros ty'. by rewrite registered_off.
  - rewrite registered_off, decide_True by done.
    unfold set_delete. rewrite list_elem_of_filter. tauto.
  - intros Hnin ty'. rewrite registered_off, registered_on.
    destruct (decide (ty' = ty)) as [->|Hne]; [|done].
    unfold set_add, set_delete. rewrite decide_False by done.
    rewrite filter_app, filter_cons_False, filter_nil, app_nil_r
      by (intros H'; by apply H').
    clear -Hnin. induction (registered ty em) as [|x l IH]; [done|].
    rewrite not_elem_of_cons in Hnin. destruct Hnin as [Hx Hl].
    rewrite filter_cons_True by congruence. by rewrite IH.
Qed.

Context (behaviour : EventHandler -> NormalizedEvent num -> Exec.result unit).

(** X19: after [destroy()] the manager is silent: whatever was
    registered before, and whatever is registered or unregistered
    afterwards, an event of any type on the canvas calls no
    handler. *)
Theorem destroyed_manager_is_silent (c : Canvas num)
    (before after : list registration) ty (event : DomEvent num) :
  deliver behaviour ty event
    (register_all after (destroy (register_all before (new c))))
  = ([], Exec.Ok tt).
Proof.
  unfold deliver. rewrite decide_False; [done|].
  destruct (canvas_register_all after (destroy (register_all before (new c))))
    as [-> _].
  simpl. destruct (canvas_register_all before (new c)) as [_ ->].
  destruct (new_state c) as (_ & -> & _).
  apply removed_listener, all_types_bound.
Qed.

Lemma dispatch_prefix (hs : list EventHandler) (e : NormalizedEvent num) :
  exists n, fst (dispatch behaviour hs e) = map (fun h => (h, e)) (take n hs).
Proof.
  induction hs as [|h hs [n IH]]; simpl.
  - by exists 0.
  - destruct (behaviour h e).
    + destruct (dispatch behaviour hs e) as [calls r]. simpl in *.
      exists (S n). simpl. by rewrite IH.
    + exists 1. simpl. by destruct hs.
Qed.

(** X20: on a manager that has not been destroyed, after any
    sequence of [on] and [off] calls, a mouse event of any of the nine
    types reaches the handlers registered for that type and no other:
    they are called in registration order, no handler twice, each with
    the event's type, the point relative to the canvas rectangle and
    the original event; the calls made are a prefix of that list, cut
    short only where a handler throws. *)
Theorem mouse_event_reaches_registered_handlers (c : Canvas num)
    (rs : list registration) ty (clientX clientY : num) :
  let em := register_all rs (new c) in
  let e := {| type := ty;
              point := {| Point.x := num_sub clientX (rect_left c);
                          Point.y := num_sub clientY (rect_top c) |};
              originalEvent := MouseEvent clientX clientY |} in
  deliver behaviour ty (MouseEvent clientX clientY) em
    = dispatch behaviour (registered ty em) e
  /\ NoDup (registered ty em)
  /\ (exists n, fst (deliver behaviour ty (MouseEvent clientX clientY) em)
                = map (fun h => (h, e)) (take n (registered ty em)))
  /\ ((forall h, h ∈ registered ty em -> behaviour h e = Exec.Ok tt) ->
      deliver behaviour ty (MouseEvent clientX clientY) em
      = (map (fun h => (h, e)) (registered ty em), Exec.Ok tt)).
Proof.
  intros em e.
  assert (deliver behaviour ty (MouseEvent clientX clientY) em
          = dispatch behaviour (registered ty em) e) as Heq.
  { unfold deliver. destruct (canvas_register_all rs (new c)) as [Hc _].
    fold em in Hc. rewrite decide_True.
    - unfold handleEvent, registered. simpl. rewrite Hc. simpl.
      by destruct (JsMap.get ty (handlers em)).
    - rewrite Hc. destruct (new_state c) as (_ & _ & ->).
      apply elem_of_app. right. apply all_types_bound. }
  split; [exact Heq|]. split; [|split].
  - apply NoDup_registered. intros ty'. unfold registered.
    destruct (new_state c) as (-> & _). simpl. constructor.
  - rewrite Heq. apply dispatch_prefix.
  - rewrite Heq. generalize (registered ty em). intros hs Hok.
    induction hs as [|h hs IH]; [done|]. simpl.
    rewrite (Hok h) by left. rewrite IH; [done|].
    intros h' Hh'. apply Hok. by right.
Qed.

(** X21: a handler that throws stops the dispatch: the handlers
    registered before it have been called, in order, it has been
    called, the handlers registered after it are not called, and the
    error leaves [handleEvent]. *)
Theorem throwing_handler_stops_dispatch ty (event : DomEvent num) em
    (p : Point.t num) (before after : list EventHandler) h (msg : string) :
  getEventPoint event em = Some p ->
  registered ty em = before ++ h :: after ->
  (forall h', h' ∈ before ->
     behaviour h' {| type := ty; point := p; originalEvent := event |}
     = Exec.Ok tt) ->
  behaviour h {| type := ty; point := p; originalEvent := event |}
  = Exec.Throw msg ->
  handleEvent behaviour ty event em
  = (map (fun h' => (h', {| type := ty; point := p; originalEvent := event |}))
       (before ++ [h]),
     Exec.Throw msg).
Proof.
  intros Hp Hreg Hok Hthrow. unfold handleEvent. rewrite Hp.
  unfold registered in Hreg.
  destruct (JsMap.get ty (handlers em)) as [hs|]; simpl in Hreg;
    [|by destruct before].
  subst hs. clear Hp.
  induction before as [|b before IH]; simpl.
  - by rewrite Hthrow.
  - rewrite (Hok b) by left. rewrite IH; [done|].
    intros h' Hh'. apply Hok. by right.
Qed.

End Facts.

(** The theorem at [em0] with a third handler, 9, and a touch at
    [(110, 220)]: 7 returns, 8 throws, 9 is not called. *)
Lemma throwing_handler_stops_dispatch_witness :
  let behaviour := fun (h : EventHandler) (_ : NormalizedEvent Z) =>
                     if Nat.eqb h 8 then Exec.Throw "handler failed"
                     else Exec.Ok tt in
  let event := TouchEvent [{| touch_clientX := 110%Z; touch_clientY := 220%Z |}] in
  let e := {| type := touchmove;
              point := {| Point.x := 100%Z; Point.y := 200%Z |};
              originalEvent := event |} in
  handleEvent behaviour touchmove event (on touchmove 9 em0)
  = (map (fun h' => (h', e)) ([7] ++ [8]), Exec.Throw "handler failed").
Proof.
  apply (throwing_handler_stops_dispatch
           (fun (h : EventHandler) (_ : NormalizedEvent Z) =>
              if Nat.eqb h 8 then Exec.Throw "handler failed" else Exec.Ok tt)
           touchmove
           (TouchEvent [{| touch_clientX := 110%Z; touch_clientY := 220%Z |}])
           (on touchmove 9 em0)
           {| Point.x := 100%Z; Point.y := 200%Z |} [7] [9] 8 "handler failed").
  - reflexivity.
  - reflexivity.
  - intros h' Hh'. apply list_elem_of_singleton in Hh'. subst h'. reflexivity.
  - reflexivity.
Defined.

End RegistrationFacts.

(* ================================================================== *)
(** ** Categorical domains *)

Module DomainFacts.
Import ScaleManager ScaleManagerFacts.
Local Open Scope nat_scope.

Section Facts.
Context {V : Type} `{EqDecision V} {O : Comparable V}.

Lemma first_seen_NoDup (l : list V) : NoDup l -> first_seen l = l.
Proof.
  induction 1 as [|a l Ha Hl IH]; simpl; [done|].
  rewrite IH. f_equal. clear IH Hl.
  induction l as [|b l IH]; [done|].
  apply not_elem_of_cons in Ha as [Hne Ha].
  rewrite filter_cons_True by congruence. by rewrite IH.
Qed.

Lemma filter_none (P : V -> Prop) `{forall v, Decision (P v)} (l : list V) :
  (forall v, v ∈ l -> ~ P v) -> filter P l = [].
Proof.
  induction l as [|a l IH]; intros Hl; [done|].
  rewrite filter_cons_False by (apply Hl; left).
  apply IH. intros v Hv. apply Hl. by right.
Qed.

Lemma imap_id (l : list V) : imap (fun (i : nat) (d : V) => d) l = l.
Proof. induction l as [|a l IH]; simpl; [done|]. f_equal. exact IH. Qed.

(** X22: a categorical domain is stable.  The domain that
    [computeDomain] computes for a categorical scale type is returned
    unchanged when [computeDomain] is applied to the domain itself,
    and is the domain of the data followed by any further data whose
    accessor results are all in it already. *)
Theorem computeDomain_of_categorical_domain {T : Type}
    (data : list T) (accessor : T -> nat -> V) (scaleType : ScaleType)
    (domain : list V) :
  categorical scaleType = true ->
  computeDomain data accessor scaleType = Exec.Ok domain ->
  computeDomain domain (fun d _ => d) scaleType = Exec.Ok domain
  /\ (forall more,
        (forall v, v ∈ results (data ++ more) accessor -> v ∈ domain) ->
        computeDomain (data ++ more) accessor scaleType = Exec.Ok domain).
Proof.
  intros Hc. unfold computeDomain, results. rewrite Hc.
  rewrite Array_from_Set_first_seen. intros [= <-]. split.
  - rewrite imap_id, Array_from_Set_first_seen. f_equal.
    apply first_seen_NoDup, NoDup_first_seen.
  - intros more Hmore. f_equal. unfold Array_from_Set.
    rewrite imap_app in *. rewrite fold_left_app.
    fold (Array_from_Set (imap (fun i d => accessor d i) data)).
    rewrite Array_from_Set_first_seen, Set_fold.
    match goal with
    | |- ?a ++ filter ?P ?l = ?a => assert (filter P l = []) as ->
    end; [|by rewrite app_nil_r].
    apply filter_none. intros v Hv Hnot. apply Hnot.
    apply Hmore, elem_of_app. right. by apply elem_of_first_seen.
Qed.

End Facts.

(** The theorem at five numbers with three distinct values, for a
    band scale. *)
Lemma computeDomain_of_categorical_domain_witness :
  computeDomain [3; 1; 2]%Z (fun d _ => d) band = Exec.Ok [3; 1; 2]%Z
  /\ (forall more,
        (forall v, v ∈ results ([3; 1; 3; 2; 1]%Z ++ more) (fun d _ => d) ->
                   v ∈ [3; 1; 2]%Z) ->
        computeDomain ([3; 1; 3; 2; 1]%Z ++ more) (fun d _ => d) band
        = Exec.Ok [3; 1; 2]%Z).
Proof.
  apply (computeDomain_of_categorical_domain
           [3; 1; 3; 2; 1]%Z (fun d _ => d) band [3; 1; 2]%Z).
  - reflexivity.
  - reflexivity.
Defined.

End DomainFacts.

(* ================================================================== *)
(** ** Hit testing of bars *)

Module BarChartFacts.
Import BarChart.
Local Open Scope nat_scope.

Section Facts.
Context {num : Type} {N : Number num} {A : Abs num} {T X : Type}.
Implicit Types (c : Config num T X) (rest : list T).

Lemma find_from_horizontal c (px py : num) (i : nat) rest :
  orientation c = horizontal -> find_from c px py i rest = None.
Proof.
  intros Ho. revert i. induction rest as [|d rest IH]; intros i; simpl; [done|].
  rewrite Ho. apply IH.
Qed.

Lemma find_from_vertical c (px py : num) (i : nat) rest :
  orientation c = vertical ->
  match find_from c px py i rest with
  | Some (datum, k) =>
      exists j, k = i + j /\ rest !! j = Some datum
        /\ hit c px py datum k = true
        /\ (forall j' d', j' < j -> rest !! j' = Some d' ->
              hit c px py d' (i + j') = false)
  | None =>
      forall j d, rest !! j = Some d -> hit c px py d (i + j) = false
  end.
Proof.
  intros Ho. revert i. induction rest as [|d rest IH]; intros i; simpl.
  - intros j d' Hd. by rewrite lookup_nil in Hd.
  - rewrite Ho. destruct (hit c px py d i) eqn:Hit.
    + exists 0. rewrite Nat.add_0_r. repeat split; try done. intros; lia.
    + specialize (IH (S i)).
      destruct (find_from c px py (S i) rest) as [[datum k]|].
      * destruct IH as (j & -> & Hj & Hhit & Hbefore).
        exists (S j). split; [lia|]. split; [done|]. split; [done|].
        intros [|j'] d' Hlt Hd'; simpl in Hd'.
        -- injection Hd' as <-. by rewrite Nat.add_0_r.
        -- replace (i + S j') with (S i + j') by lia. apply Hbefore; [lia|done].
      * intros [|j] d' Hd'; simpl in Hd'.
        -- injection Hd' as <-. by rewrite Nat.add_0_r.
        -- replace (i + S j) with (S i + j) by lia. by apply IH.
Qed.

(** X23: on a chart whose orientation is horizontal,
    [findBarAtPoint] returns [null] for every point and every data:
    the loop tests bars only when the orientation is vertical. *)
Theorem findBarAtPoint_finds_no_horizontal_bar c (px py : num) :
  orientation c = horizontal -> findBarAtPoint c px py = None.
Proof. intros Ho. by apply find_from_horizontal. Qed.

(** X24: on a chart whose orientation is vertical, [findBarAtPoint]
    returns the first datum, in data order, whose box contains the
    point, with its index; it returns [null] exactly when the box of
    no datum contains the point. *)
Theorem findBarAtPoint_returns_first_hit c (px py : num) :
  orientation c = vertical ->
  match findBarAtPoint c px py with
  | Some (datum, index) =>
      data c !! index = Some datum
      /\ hit c px py datum index = true
      /\ (forall j d, j < index -> data c !! j = Some d ->
            hit c px py d j = false)
  | None =>
      forall j d, data c !! j = Some d -> hit c px py d j = false
  end.
Proof.
  intros Ho. pose proof (find_from_vertical c px py 0 (data c) Ho) as H.
  unfold findBarAtPoint.
  destruct (find_from c px py 0 (data c)) as [[datum k]|].
  - destruct H as (j & -> & Hj & Hhit & Hbefore). simpl in *.
    repeat split; try done.
  - exact H.
Qed.

End Facts.

(** X25: over the integers, the box that [findBarAtPoint] tests for
    a datum reaches, in [y], from the baseline [yScale(0)] to the value
    [yScale(y)], whichever of the two is the smaller, both ends
    included, and in [x] from [xScale(x)] over the bandwidth of the x
    scale (zero when the scale has none); the bar padding plays no
    part; and no point is in the box of a datum for which a scale
    gives [undefined]. *)
Theorem hit_box_spans_baseline_to_value {T X : Type}
    (c : Config Z T X) (px py : Z) (datum : T) (i : nat) :
  hit c px py datum i = true
  <-> exists barX barY y0 : Z,
        scale_of (xScale c) (x c datum i) = Some barX
        /\ scale_of (yScale c) (y c datum i) = Some barY
        /\ scale_of (yScale c) 0%Z = Some y0
        /\ (barX <= px <= barX + default 0 (bandwidth (xScale c)))%Z
        /\ (Z.min barY y0 <= py <= Z.max barY y0)%Z.
Proof.
  unfold hit. simpl.
  destruct (scale_of (xScale c) (x c datum i)) as [barX|];
    [|split; [done|by intros (?&?&?&?&_)]].
  destruct (scale_of (yScale c) (y c datum i)) as [barY|];
    [|split; [done|by intros (?&?&?&?&?&_)]].
  destruct (scale_of (yScale c) 0%Z) as [y0|];
    [|split; [done|by intros (?&?&?&?&?&?&_)]].
  rewrite !andb_true_iff, !Z.leb_le. split.
  - intros H. exists barX, barY, y0. repeat split; try done; lia.
  - intros (? & ? & ? & [= <-] & [= <-] & [= <-] & H1 & H2). lia.
Qed.

(** The theorems at three bars and the point [(25, 60)], which is in
    the second bar. *)
Lemma findBarAtPoint_finds_no_horizontal_bar_witness :
  findBarAtPoint (bars horizontal) 25%Z 60%Z = None.
Proof.
  apply (findBarAtPoint_finds_no_horizontal_bar (bars horizontal) 25%Z 60%Z).
  reflexivity.
Defined.

Lemma findBarAtPoint_returns_first_hit_witness :
  match findBarAtPoint (bars vertical) 25%Z 60%Z with
  | Some (datum, index) =>
      data (bars vertical) !! index = Some datum
      /\ hit (bars vertical) 25%Z 60%Z datum index = true
      /\ (forall j d, j < index -> data (bars vertical) !! j = Some d ->
            hit (bars vertical) 25%Z 60%Z d j = false)
  | None =>
      forall j d, data (bars vertical) !! j = Some d ->
        hit (bars vertical) 25%Z 60%Z d j = false
  end.
Proof.
  apply (findBarAtPoint_returns_first_hit (bars vertical) 25%Z 60%Z).
  reflexivity.
Defined.

End BarChartFacts.
